(** * qnetdes: agents, quantum and classical connections

    A shallow embedding of [qnetdes/agents.py] and [qnetdes/connections.py].

    Python objects that are shared and mutated in place (agents, device
    lists, programs, connections) live in a store and are named by
    references; a method is a function from the store to an outcome and
    the store it leaves behind, so that what a call had already mutated
    when it raised stays mutated.

    Numbers.  Delays and clocks are Python floats in the source; they are
    idealised here as exact rationals ([Qc]), so rounding is not part of
    the model.  Qubit and cbit indices are Python ints ([Z]). *)

From stdpp Require Import gmap strings list fin_maps numbers.
From Stdlib Require Import QArith Qcanon.

Open Scope string_scope.
Open Scope Z_scope.
Open Scope list_scope.
Open Scope stdpp_scope.

(** ** References *)

Abbreviation ref := positive.

(** ** Module constants of connections.py *)

(** An int used as a number. *)
Definition num (z : Z) : Qc := Q2Qc (inject_Z z).

(** [pulse_length_default = 10 * 10 ** -12] *)
Definition pulse_length_default : Qc := (num 10 * / (num 10 ^ 12))%Qc.
(** [signal_speed = 2.998 * 10 ** 5] *)
Definition signal_speed : Qc := (Q2Qc (2998 # 1000) * num 10 ^ 5)%Qc.
(** [fiber_length_default = 0.0] *)
Definition fiber_length_default : Qc := 0%Qc.

(** [len(l)] as a number. *)
Definition len {A} (l : list A) : Qc := num (Z.of_nat (length l)).

(** [set(l)] for a list of ints. *)
Definition set_of (l : list Z) : gset Z := list_to_set l.

(** [list(s)]: Python leaves the iteration order of a set unspecified; the
    model takes the order of [elements].  Nothing below depends on it. *)
Definition list_of (s : gset Z) : list Z := elements s.

(** ** Objects *)

Module Agent.
(** The attributes [Agent.__init__] sets.  [program] names the program
    object, [target_devices] and [source_devices] name the two list
    objects that [add_device] appends to. *)
Record t := mk {
  name : string;
  time : Qc;
  qconnections : gmap string ref;
  cconnections : gmap string ref;
  qubits : list Z;
  program : ref;
  target_devices : ref;
  source_devices : ref;
}.
End Agent.

Module QConnect.
(** A queue entry: [(qubits, non_source_devices, scaled_source_delay,
    source_time)], where [non_source_devices] is the dict with the keys
    ["transit"] and ["target"]; its two values are list objects. *)
Record entry := mk_entry {
  e_qubits : list Z;
  e_transit : ref;
  e_target : ref;
  e_source_delay : Qc;
  e_source_time : Qc;
}.

Record t := mk {
  source_devices : gmap string ref;
  target_devices : gmap string ref;
  transit_devices : gmap string ref;
  agents : gmap string ref;
  queues : gmap string (list entry);
}.
End QConnect.

Module CConnect.
Record t := mk {
  agents : gmap string ref;
  length : Qc;
  queues : gmap string (list (list Z * Qc));
}.
End CConnect.

(** ** What the core takes from outside *)

(** A device is anything with [apply(program, qubits)], which returns a
    delay and may change the program it is handed. *)
Class DeviceCapability (Program Device : Type) :=
  device_apply : Device → Program → list Z → Program * Qc.

(** [sys.getsizeof], the size in bytes CPython reports for an object. *)
Class SizeOf := sys_getsizeof : list Z → Z.

(** ** Exceptions and outcomes *)

Inductive exn :=
  | Exception (msg : string)
  | KeyError (key : string)
  | TypeError (msg : string)
  | AttributeError (msg : string)
  | ValueError (msg : string).

(** A call returns, raises, or blocks on an empty queue.  [Undefined] is
    the model's own: a reference that names nothing in the store, which no
    Python run produces. *)
Inductive outcome (A : Type) :=
  | Return (a : A)
  | Raise (e : exn)
  | Blocks
  | Undefined.
Arguments Return {A} a.
Arguments Raise {A} e.
Arguments Blocks {A}.
Arguments Undefined {A}.

(** The argument of [QConnect.get]: the method reads [agent.name] and
    [agent.qubits], and its callers pass either an agent or a string. *)
Inductive pyobj :=
  | PyStr (s : string)
  | PyAgent (r : ref).

Section Model.
Context {Program Device : Type} `{!DeviceCapability Program Device} `{!SizeOf}.

(** ** The store *)

Record World := mkWorld {
  agents : gmap ref Agent.t;
  lists : gmap ref (list Device);
  programs : gmap ref Program;
  qconnects : gmap ref QConnect.t;
  cconnects : gmap ref CConnect.t;
}.

Definition M (A : Type) : Type := World → outcome A * World.

Definition ret {A} (a : A) : M A := λ w, (Return a, w).

Definition bind {A B} (m : M A) (k : A → M B) : M B := λ w,
  match m w with
  | (Return a, w') => k a w'
  | (Raise e, w') => (Raise e, w')
  | (Blocks, w') => (Blocks, w')
  | (Undefined, w') => (Undefined, w')
  end.

Definition raise {A} (e : exn) : M A := λ w, (Raise e, w).

Definition blocks {A} : M A := λ w, (Blocks, w).

#[local] Instance M_ret : MRet M := @ret.
#[local] Instance M_bind : MBind M := λ A B k m, bind m k.

(** Reading and writing the objects of the store. *)

Definition deref {V} (store : World → gmap ref V) (r : ref) : M V := λ w,
  match store w !! r with
  | Some v => (Return v, w)
  | None => (Undefined, w)
  end.

Definition set_agent (r : ref) (a : Agent.t) : M unit := λ w,
  (Return tt, mkWorld (<[r := a]> (agents w)) (lists w) (programs w)
                      (qconnects w) (cconnects w)).

Definition set_list (r : ref) (l : list Device) : M unit := λ w,
  (Return tt, mkWorld (agents w) (<[r := l]> (lists w)) (programs w)
                      (qconnects w) (cconnects w)).

Definition set_program (r : ref) (p : Program) : M unit := λ w,
  (Return tt, mkWorld (agents w) (lists w) (<[r := p]> (programs w))
                      (qconnects w) (cconnects w)).

Definition set_qconnect (r : ref) (c : QConnect.t) : M unit := λ w,
  (Return tt, mkWorld (agents w) (lists w) (programs w)
                      (<[r := c]> (qconnects w)) (cconnects w)).

Definition set_cconnect (r : ref) (c : CConnect.t) : M unit := λ w,
  (Return tt, mkWorld (agents w) (lists w) (programs w)
                      (qconnects w) (<[r := c]> (cconnects w))).

(** [d[k]] on a dict. *)
Definition getitem {V} (d : gmap string V) (k : string) : M V :=
  match d !! k with
  | Some v => ret v
  | None => raise (KeyError k)
  end.

(** [lst.append(x)] on a list object. *)
Definition list_append (r : ref) (x : Device) : M unit :=
  l ← deref lists r; set_list r (l ++ [x]).

(** [device.apply(program, qubits)]: the device reads and may rewrite the
    program object, and returns its delay. *)
Definition call_apply (device : Device) (program : ref) (qubits : list Z) : M Qc :=
  p ← deref programs program;
  let '(p', delay) := device_apply device p qubits in
  set_program program p';;
  ret delay.

(** [for device in devices: delay += device.apply(program, qubits)] *)
Fixpoint apply_each (devices : list Device) (program : ref) (qubits : list Z)
    (delay : Qc) : M Qc :=
  match devices with
  | [] => ret delay
  | device :: rest =>
      d ← call_apply device program qubits;
      apply_each rest program qubits (delay + d)%Qc
  end.

(** ** class QConnect *)

Definition with_queues (c : QConnect.t)
    (queues : gmap string (list QConnect.entry)) : QConnect.t :=
  QConnect.mk (QConnect.source_devices c) (QConnect.target_devices c)
    (QConnect.transit_devices c) (QConnect.agents c) queues.

(** [self.queues[target].put(entry)]: [queue.Queue()] is unbounded, so the
    call never blocks; the entry goes to the tail. *)
Definition QConnect_queue_put (self : ref) (target : string)
    (e : QConnect.entry) : M unit :=
  c ← deref qconnects self;
  q ← getitem (QConnect.queues c) target;
  set_qconnect self (with_queues c (<[target := q ++ [e]]> (QConnect.queues c))).

(** [self.queues[name].get()]: takes the entry at the head, and blocks
    while the queue is empty. *)
Definition QConnect_queue_get (self : ref) (name : string) : M QConnect.entry :=
  c ← deref qconnects self;
  q ← getitem (QConnect.queues c) name;
  match q with
  | [] => blocks
  | e :: rest =>
      set_qconnect self (with_queues c (<[name := rest]> (QConnect.queues c)));;
      ret e
  end.

(** [QConnect.put(self, source, target, qubits, source_time)] *)
Definition QConnect_put (self : ref) (source target : string) (qubits : list Z)
    (source_time : Qc) : M Qc :=
  c ← deref qconnects self;
  source_devices ← getitem (QConnect.source_devices c) source;
  transit_devices ← getitem (QConnect.transit_devices c) source;
  target_devices ← getitem (QConnect.target_devices c) target;
  a ← getitem (QConnect.agents c) source;
  agent ← deref agents a;
  let program := Agent.program agent in
  let source_delay := 0%Qc in
  devices ← deref lists source_devices;
  source_delay ←
    match devices with
    | [] => ret (source_delay + pulse_length_default)%Qc
    | _ => apply_each devices program qubits source_delay
    end;
  let scaled_source_delay := (source_delay * len qubits)%Qc in
  QConnect_queue_put self target
    (QConnect.mk_entry qubits transit_devices target_devices
       scaled_source_delay source_time);;
  ret scaled_source_delay.

(** The call protocol of [put]: the method has four parameters after
    [self].  A call that passes only three positional arguments leaves
    [source_time] unbound ([None] here), which Python rejects with a
    [TypeError] before the body runs. *)
Definition QConnect_put_call (self : ref) (source target : string)
    (qubits : list Z) (source_time : option Qc) : M Qc :=
  match source_time with
  | Some t => QConnect_put self source target qubits t
  | None =>
      raise (TypeError
        "put() missing 1 required positional argument: 'source_time'")
  end.

(** [agent.name], [agent.qubits] and [agent.qubits = v] on the argument of
    [get]: a [str] has neither attribute. *)
Definition getattr_name (agent : pyobj) : M string :=
  match agent with
  | PyAgent r => a ← deref agents r; ret (Agent.name a)
  | PyStr _ => raise (AttributeError "'str' object has no attribute 'name'")
  end.

Definition getattr_qubits (agent : pyobj) : M (list Z) :=
  match agent with
  | PyAgent r => a ← deref agents r; ret (Agent.qubits a)
  | PyStr _ => raise (AttributeError "'str' object has no attribute 'qubits'")
  end.

Definition with_qubits (a : Agent.t) (qs : list Z) : Agent.t :=
  Agent.mk (Agent.name a) (Agent.time a) (Agent.qconnections a)
    (Agent.cconnections a) qs (Agent.program a) (Agent.target_devices a)
    (Agent.source_devices a).

Definition with_time (a : Agent.t) (t : Qc) : Agent.t :=
  Agent.mk (Agent.name a) t (Agent.qconnections a)
    (Agent.cconnections a) (Agent.qubits a) (Agent.program a)
    (Agent.target_devices a) (Agent.source_devices a).

Definition setattr_qubits (agent : pyobj) (qs : list Z) : M unit :=
  match agent with
  | PyAgent r => a ← deref agents r; set_agent r (with_qubits a qs)
  | PyStr _ => raise (AttributeError "'str' object has no attribute 'qubits'")
  end.

(** [QConnect.get(self, agent)] *)
Definition QConnect_get (self : ref) (agent : pyobj) : M (list Z * Qc * Qc) :=
  c ← deref qconnects self;
  agent_name ← getattr_name agent;
  e ← QConnect_queue_get self agent_name;
  let qubits := QConnect.e_qubits e in
  let source_delay := QConnect.e_source_delay e in
  let source_time := QConnect.e_source_time e in
  owned ← getattr_qubits agent;
  setattr_qubits agent (list_of (set_of (qubits ++ owned)));;
  agent_name ← getattr_name agent;
  a ← getitem (QConnect.agents c) agent_name;
  registered ← deref agents a;
  let program := Agent.program registered in
  transit_devices ← deref lists (QConnect.e_transit e);
  target_devices ← deref lists (QConnect.e_target e);
  let travel_delay := 0%Qc in
  let travel_delay :=
    match transit_devices with
    | [] => (travel_delay + fiber_length_default / signal_speed)%Qc
    | _ => travel_delay
    end in
  let travel_delay :=
    match target_devices with
    | [] => (travel_delay + 0)%Qc
    | _ => travel_delay
    end in
  travel_delay ←
    apply_each (transit_devices ++ target_devices) program qubits travel_delay;
  let scaled_delay := (travel_delay * len qubits + source_delay)%Qc in
  ret (qubits, scaled_delay, source_time).

(** Allocation of a fresh list object. *)
Definition new_list (l : list Device) : M ref := λ w,
  let r := fresh (dom (lists w)) in
  (Return r, mkWorld (agents w) (<[r := l]> (lists w)) (programs w)
                     (qconnects w) (cconnects w)).

Definition with_qconnections (a : Agent.t) (d : gmap string ref) : Agent.t :=
  Agent.mk (Agent.name a) (Agent.time a) d (Agent.cconnections a)
    (Agent.qubits a) (Agent.program a) (Agent.target_devices a)
    (Agent.source_devices a).

Definition with_cconnections (a : Agent.t) (d : gmap string ref) : Agent.t :=
  Agent.mk (Agent.name a) (Agent.time a) (Agent.qconnections a) d
    (Agent.qubits a) (Agent.program a) (Agent.target_devices a)
    (Agent.source_devices a).

(** [QConnect(agent_one, agent_two, transit_devices)]: a new connection
    object is made and [__init__] runs on it.  A dict display with the same
    key twice keeps the later value, as the second insertion does here.
    [transit_devices[::-1]] is a new list object. *)
Definition QConnect_init (agent_one agent_two : ref) (transit_devices : ref)
    : M ref :=
  self ← (λ w, (Return (fresh (dom (qconnects w))), w));
  one ← deref agents agent_one;
  let agent_one_name := Agent.name one in
  two ← deref agents agent_two;
  let agent_two_name := Agent.name two in
  let source_devices : gmap string ref :=
    <[agent_two_name := Agent.source_devices two]>
      {[agent_one_name := Agent.source_devices one]} in
  let target_devices : gmap string ref :=
    <[agent_two_name := Agent.target_devices two]>
      {[agent_one_name := Agent.target_devices one]} in
  d ← deref lists transit_devices;
  reversed ← new_list (reverse d);
  let transit : gmap string ref :=
    <[agent_two_name := reversed]> {[agent_one_name := transit_devices]} in
  one ← deref agents agent_one;
  set_agent agent_one
    (with_qconnections one (<[agent_two_name := self]> (Agent.qconnections one)));;
  two ← deref agents agent_two;
  set_agent agent_two
    (with_qconnections two (<[agent_one_name := self]> (Agent.qconnections two)));;
  let agents_ : gmap string ref :=
    <[agent_two_name := agent_two]> {[agent_one_name := agent_one]} in
  let queues : gmap string (list QConnect.entry) :=
    <[agent_two_name := []]> {[agent_one_name := []]} in
  set_qconnect self
    (QConnect.mk source_devices target_devices transit agents_ queues);;
  ret self.

(** ** class CConnect *)

(** [CConnect(agent_one, agent_two, length)] *)
Definition CConnect_init (agent_one agent_two : ref) (length : Qc) : M ref :=
  self ← (λ w, (Return (fresh (dom (cconnects w))), w));
  one ← deref agents agent_one;
  let agent_one_name := Agent.name one in
  two ← deref agents agent_two;
  let agent_two_name := Agent.name two in
  set_agent agent_one
    (with_cconnections one (<[agent_two_name := self]> (Agent.cconnections one)));;
  two ← deref agents agent_two;
  set_agent agent_two
    (with_cconnections two (<[agent_one_name := self]> (Agent.cconnections two)));;
  let agents_ : gmap string ref :=
    <[agent_two_name := agent_two]> {[agent_one_name := agent_one]} in
  let queues : gmap string (list (list Z * Qc)) :=
    <[agent_two_name := []]> {[agent_one_name := []]} in
  set_cconnect self (CConnect.mk agents_ length queues);;
  ret self.

(** [CConnect.put(self, target, cbits)] *)
Definition CConnect_put (self : ref) (target : string) (cbits : list Z) : M Qc :=
  let csource_delay :=
    (pulse_length_default * num 8 * num (sys_getsizeof cbits))%Qc in
  c ← deref cconnects self;
  q ← getitem (CConnect.queues c) target;
  set_cconnect self
    (CConnect.mk (CConnect.agents c) (CConnect.length c)
       (<[target := q ++ [(cbits, csource_delay)]]> (CConnect.queues c)));;
  ret csource_delay.

(** [CConnect.get(self, agent)]; [agent] is the name of the receiver. *)
Definition CConnect_get (self : ref) (agent : string) : M (list Z * Qc) :=
  c ← deref cconnects self;
  q ← getitem (CConnect.queues c) agent;
  match q with
  | [] => blocks
  | (cbits, source_delay) :: rest =>
      set_cconnect self
        (CConnect.mk (CConnect.agents c) (CConnect.length c)
           (<[agent := rest]> (CConnect.queues c)));;
      let travel_delay := (CConnect.length c / signal_speed)%Qc in
      let scaled_delay := (travel_delay * len cbits + source_delay)%Qc in
      ret (cbits, scaled_delay)
  end.

(** ** class Agent *)

(** [Agent(program, qubits, name)], for an instance of the class called
    [class_name]; [name] is [None] when the caller leaves it out. *)
Definition Agent_init (class_name : string) (program : ref) (qubits : list Z)
    (name : option string) : M ref :=
  self ← (λ w, (Return (fresh (dom (agents w))), w));
  let name := match name with Some n => n | None => class_name end in
  target_devices ← new_list [];
  source_devices ← new_list [];
  set_agent self
    (Agent.mk name 0%Qc ∅ ∅ qubits program target_devices source_devices);;
  ret self.

(** [Agent.add_device(self, device_type, device)] *)
Definition add_device (self : ref) (device_type : string) (device : Device)
    : M unit :=
  a ← deref agents self;
  if decide (device_type = "source") then
    list_append (Agent.source_devices a) device
  else if decide (device_type = "target") then
    list_append (Agent.target_devices a) device
  else
    raise (Exception "Invalid device type (e.g. 'source' or 'target'").

(** [Agent.qsend(self, target, qubits)].  The call of [put] passes the
    three arguments [self.name, target, qubits]. *)
Definition qsend (self : ref) (target : string) (qubits : list Z) : M unit :=
  a ← deref agents self;
  if decide (set_of qubits ⊆ set_of (Agent.qubits a)) then
    set_agent self
      (with_qubits a (list_of (set_of (Agent.qubits a) ∖ set_of qubits)));;
    a ← deref agents self;
    connection ← getitem (Agent.qconnections a) target;
    QConnect_put_call connection (Agent.name a) target qubits None;;
    ret tt
  else
    raise (Exception "Agent cannot send qubits they do not have").

(** [a, b = t] for a tuple [t] of three values. *)
Definition unpack_two {A B C} (t : A * B * C) : M (A * B) :=
  raise (ValueError "too many values to unpack (expected 2)").

(** [Agent.qrecv(self, source)].  The call of [get] passes [self.name], a
    string, and its result is unpacked into two names. *)
Definition qrecv (self : ref) (source : string) : M (list Z) :=
  a ← deref agents self;
  connection ← getitem (Agent.qconnections a) source;
  r ← QConnect_get connection (PyStr (Agent.name a));
  '(qubits, delay) ← unpack_two r;
  a ← deref agents self;
  set_agent self (with_qubits a (list_of (set_of (qubits ++ Agent.qubits a))));;
  a ← deref agents self;
  set_agent self (with_time a (Agent.time a + delay)%Qc);;
  ret qubits.

(** [Agent.csend(self, target, cbits)] *)
Definition csend (self : ref) (target : string) (cbits : list Z) : M unit :=
  a ← deref agents self;
  connection ← getitem (Agent.cconnections a) target;
  CConnect_put connection target cbits;;
  ret tt.

(** [Agent.crecv(self, source)]: what [get] returns, the pair, is bound to
    [cbits] and returned as it is. *)
Definition crecv (self : ref) (source : string) : M (list Z * Qc) :=
  a ← deref agents self;
  connection ← getitem (Agent.cconnections a) source;
  cbits ← CConnect_get connection (Agent.name a);
  ret cbits.

(** ** The words of the claims about device chains

    What a chain of devices, invoked one after the other on a program,
    leaves as the program, and the delays the devices return, in the order
    of the invocations. *)
Fixpoint chain_program (devices : list Device) (p : Program) (qubits : list Z)
    : Program :=
  match devices with
  | [] => p
  | device :: rest => chain_program rest (device_apply device p qubits).1 qubits
  end.

Fixpoint chain_delays (devices : list Device) (p : Program) (qubits : list Z)
    : list Qc :=
  match devices with
  | [] => []
  | device :: rest =>
      (device_apply device p qubits).2
        :: chain_delays rest (device_apply device p qubits).1 qubits
  end.

Definition total (delays : list Qc) : Qc := foldr Qcplus 0%Qc delays.

(** ** The situations the statements are about *)

(** The entries pending for [target] on connection [c]. *)
Definition queue_of (w : World) (c : ref) (target : string)
    : option (list QConnect.entry) :=
  C ← qconnects w !! c; QConnect.queues C !! target.

(** [put(source, target, ...)] on connection [c] finds all it looks up:
    both names are names of the connection, [devs] is the content of the
    source's list of source devices, [p] the source's program and [q] the
    queue of the target. *)
Definition put_context (w : World) (c : ref) (C : QConnect.t)
    (source target : string) (lt lg : ref) (A : Agent.t)
    (devs : list Device) (p : Program) (q : list QConnect.entry) : Prop :=
  qconnects w !! c = Some C ∧
  (∃ ls, QConnect.source_devices C !! source = Some ls ∧
         lists w !! ls = Some devs) ∧
  QConnect.transit_devices C !! source = Some lt ∧
  QConnect.target_devices C !! target = Some lg ∧
  (∃ a, QConnect.agents C !! source = Some a ∧ agents w !! a = Some A) ∧
  programs w !! Agent.program A = Some p ∧
  QConnect.queues C !! target = Some q.

(** [get(b)] on connection [c] finds a pending entry [e] for the agent
    [b]: [B] is the agent object, [lt] and [lg] are the contents of the
    transit and target lists the entry carries, and [p] is the program of
    the agent the connection has registered under the name of [b]. *)
Definition get_context (w : World) (c : ref) (C : QConnect.t) (b : ref)
    (B : Agent.t) (e : QConnect.entry) (rest : list QConnect.entry)
    (lt lg : list Device) (pr : ref) (p : Program) : Prop :=
  qconnects w !! c = Some C ∧
  agents w !! b = Some B ∧
  QConnect.queues C !! Agent.name B = Some (e :: rest) ∧
  (∃ b' B', QConnect.agents C !! Agent.name B = Some b' ∧
            agents w !! b' = Some B' ∧ Agent.program B' = pr) ∧
  lists w !! QConnect.e_transit e = Some lt ∧
  lists w !! QConnect.e_target e = Some lg ∧
  programs w !! pr = Some p.

(** What one direction of a connection looks like between calls: [put]
    from [source] to [target] and [get] by the agent [b], whose name is
    [target], find all they look up, and [pending] lists the payload and
    the sender's time of each entry waiting for [target], oldest first. *)
Definition direction_state (w : World) (c : ref) (source target : string)
    (b : ref) (pending : list (list Z * Qc)) : Prop :=
  ∃ C q B,
    qconnects w !! c = Some C ∧
    QConnect.queues C !! target = Some q ∧
    pending = map (λ e, (QConnect.e_qubits e, QConnect.e_source_time e)) q ∧
    Forall (λ e, is_Some (lists w !! QConnect.e_transit e) ∧
                 is_Some (lists w !! QConnect.e_target e)) q ∧
    (∃ ls, QConnect.source_devices C !! source = Some ls ∧
           is_Some (lists w !! ls)) ∧
    (∃ lt, QConnect.transit_devices C !! source = Some lt ∧
           is_Some (lists w !! lt)) ∧
    (∃ lg, QConnect.target_devices C !! target = Some lg ∧
           is_Some (lists w !! lg)) ∧
    (∃ a A, QConnect.agents C !! source = Some a ∧ agents w !! a = Some A ∧
            is_Some (programs w !! Agent.program A)) ∧
    agents w !! b = Some B ∧ Agent.name B = target ∧
    (∃ b' B', QConnect.agents C !! target = Some b' ∧
              agents w !! b' = Some B' ∧
              is_Some (programs w !! Agent.program B')).

(** ** The rest of class Agent *)

(** [Agent.__hash__(self)]: [hash(self.name)]; [hash] is the interpreter's
    hash of strings. *)
Definition Agent_hash (hash : string → Z) (self : ref) : M Z :=
  a ← deref agents self;
  ret (hash (Agent.name a)).

(** [Agent.__eq__(self, other)]: [self.name == other.name], for whatever
    object [other] is. *)
Definition Agent_eq (self : ref) (other : pyobj) : M bool :=
  a ← deref agents self;
  other_name ← getattr_name other;
  ret (bool_decide (Agent.name a = other_name)).

(** [Agent.__ne__(self, other)]: [not (self == other)]. *)
Definition Agent_ne (self : ref) (other : pyobj) : M bool :=
  b ← Agent_eq self other;
  ret (negb b).

(** [Agent.run(self)]: [pass]. *)
Definition Agent_run (self : ref) : M unit := ret tt.

(** A caller that makes one [add_device] call after the other on the same
    agent and goes on after a call that raised. *)
Fixpoint add_devices (self : ref) (calls : list (string * Device)) : M unit :=
  match calls with
  | [] => ret tt
  | (device_type, device) :: rest =>
      λ w, add_devices self rest (add_device self device_type device w).2
  end.

(** The devices of the calls made with the role [role], in call order. *)
Definition attached (role : string) (calls : list (string * Device))
    : list Device :=
  (filter (λ c, c.1 = role) calls).*2.


(** ** Well-formed connections

    What [QConnect.__init__] sets up and [put] and [get] keep: the five
    dicts of the connection have the same keys, and every list, agent and
    program they, or a pending entry, name is in the store. *)
Definition entry_ok (w : World) (e : QConnect.entry) : Prop :=
  is_Some (lists w !! QConnect.e_transit e) ∧
  is_Some (lists w !! QConnect.e_target e).

Definition agent_ok (w : World) (a : ref) : Prop :=
  ∃ A, agents w !! a = Some A ∧
       is_Some (lists w !! Agent.source_devices A) ∧
       is_Some (lists w !! Agent.target_devices A) ∧
       is_Some (programs w !! Agent.program A).

Definition QConnect_wf (w : World) (c : ref) : Prop :=
  ∃ C, qconnects w !! c = Some C ∧
    dom (QConnect.source_devices C) = dom (QConnect.queues C) ∧
    dom (QConnect.target_devices C) = dom (QConnect.queues C) ∧
    dom (QConnect.transit_devices C) = dom (QConnect.queues C) ∧
    dom (QConnect.agents C) = dom (QConnect.queues C) ∧
    (∀ k l, QConnect.source_devices C !! k = Some l → is_Some (lists w !! l)) ∧
    (∀ k l, QConnect.target_devices C !! k = Some l → is_Some (lists w !! l)) ∧
    (∀ k l, QConnect.transit_devices C !! k = Some l → is_Some (lists w !! l)) ∧
    (∀ k a, QConnect.agents C !! k = Some a → agent_ok w a) ∧
    (∀ k q, QConnect.queues C !! k = Some q → Forall (entry_ok w) q).

(** The names a connection knows. *)
Definition names_of (w : World) (c : ref) : gset string :=
  match qconnects w !! c with
  | Some C => dom (QConnect.queues C)
  | None => ∅
  end.


(** From one store to a later one: an agent keeps its name, clock, program
    and device lists; the agents, lists and programs of the first store are
    still there in the second. *)
Definition same_identity (A A' : Agent.t) : Prop :=
  Agent.name A' = Agent.name A ∧ Agent.time A' = Agent.time A ∧
  Agent.program A' = Agent.program A ∧
  Agent.source_devices A' = Agent.source_devices A ∧
  Agent.target_devices A' = Agent.target_devices A.

Definition agents_kept (w w' : World) : Prop :=
  ∀ r A, agents w !! r = Some A →
         ∃ A', agents w' !! r = Some A' ∧ same_identity A A'.

Definition objects_kept (w w' : World) : Prop :=
  (∀ r, is_Some (lists w !! r) → is_Some (lists w' !! r)) ∧
  (∀ r, is_Some (programs w !! r) → is_Some (programs w' !! r)).

(** ** One direction of a connection, call after call

    A caller that puts from [source] to [target] and gets for the agent
    [b], in any order, and what it sees of each call; a [get] that blocks
    is given up. *)
Inductive direction_call :=
  | DPut (qubits : list Z) (source_time : Qc)
  | DGet.

Inductive observed :=
  | Enqueued
  | Got (qubits : list Z) (source_time : Qc)
  | Blocked
  | Failed.

Definition observe_put (r : outcome Qc) : observed :=
  match r with
  | Return _ => Enqueued
  | _ => Failed
  end.

Definition observe_get (r : outcome (list Z * Qc * Qc)) : observed :=
  match r with
  | Return (qubits, _, source_time) => Got qubits source_time
  | Blocks => Blocked
  | _ => Failed
  end.

Fixpoint run_direction (c : ref) (source target : string) (b : ref)
    (calls : list direction_call) (w : World) : list observed :=
  match calls with
  | [] => []
  | DPut qubits t :: rest =>
      let '(r, w') := QConnect_put c source target qubits t w in
      observe_put r :: run_direction c source target b rest w'
  | DGet :: rest =>
      let '(r, w') := QConnect_get c (PyAgent b) w in
      observe_get r :: run_direction c source target b rest w'
  end.

(** The same calls on a first-in first-out queue of payloads. *)
Fixpoint fifo_queue (calls : list direction_call)
    (pending : list (list Z * Qc)) : list observed :=
  match calls with
  | [] => []
  | DPut qubits t :: rest => Enqueued :: fifo_queue rest (pending ++ [(qubits, t)])
  | DGet :: rest =>
      match pending with
      | [] => Blocked :: fifo_queue rest []
      | (qubits, t) :: pending' => Got qubits t :: fifo_queue rest pending'
      end
  end.


(** ** A classical connection, call after call *)

(** The delay [CConnect.put] stores with the cbits, and the delay
    [CConnect.get] returns for them over a link of length [length]. *)
Definition csource_delay (cbits : list Z) : Qc :=
  (pulse_length_default * num 8 * num (sys_getsizeof cbits))%Qc.

Definition classical_delay (length : Qc) (cbits : list Z) : Qc :=
  (length / signal_speed * len cbits + csource_delay cbits)%Qc.








(** ** Any sequence of calls

    What a program can do to the store: make a list or a program, and call
    the constructors and methods above.  [run_calls] makes the calls one
    after the other, going on after a call that raised or blocked. *)
Definition new_program (p : Program) : M ref := λ w,
  let r := fresh (dom (programs w)) in
  (Return r, mkWorld (agents w) (lists w) (<[r := p]> (programs w))
                     (qconnects w) (cconnects w)).

Inductive call :=
  | NewList (l : list Device)
  | NewProgram (p : Program)
  | NewAgent (class_name : string) (program : ref) (qubits : list Z)
      (name : option string)
  | AddDevice (self : ref) (device_type : string) (device : Device)
  | Qsend (self : ref) (target : string) (qubits : list Z)
  | Qrecv (self : ref) (source : string)
  | Csend (self : ref) (target : string) (cbits : list Z)
  | Crecv (self : ref) (source : string)
  | Eq (self : ref) (other : pyobj)
  | Ne (self : ref) (other : pyobj)
  | Run (self : ref)
  | NewQConnect (agent_one agent_two transit_devices : ref)
  | QPut (c : ref) (source target : string) (qubits : list Z) (source_time : Qc)
  | QGet (c : ref) (agent : pyobj)
  | NewCConnect (agent_one agent_two : ref) (length : Qc)
  | CPut (c : ref) (target : string) (cbits : list Z)
  | CGet (c : ref) (agent : string).

Definition run_call (k : call) (w : World) : World :=
  match k with
  | NewList l => (new_list l w).2
  | NewProgram p => (new_program p w).2
  | NewAgent class_name program qubits name =>
      (Agent_init class_name program qubits name w).2
  | AddDevice self device_type device => (add_device self device_type device w).2
  | Qsend self target qubits => (qsend self target qubits w).2
  | Qrecv self source => (qrecv self source w).2
  | Csend self target cbits => (csend self target cbits w).2
  | Crecv self source => (crecv self source w).2
  | Eq self other => (Agent_eq self other w).2
  | Ne self other => (Agent_ne self other w).2
  | Run self => (Agent_run self w).2
  | NewQConnect one two transit => (QConnect_init one two transit w).2
  | QPut c source target qubits t => (QConnect_put c source target qubits t w).2
  | QGet c agent => (QConnect_get c agent w).2
  | NewCConnect one two length => (CConnect_init one two length w).2
  | CPut c target cbits => (CConnect_put c target cbits w).2
  | CGet c agent => (CConnect_get c agent w).2
  end.

Definition run_calls (ks : list call) (w : World) : World :=
  foldl (λ w k, run_call k w) w ks.

Definition empty_world : World := mkWorld ∅ ∅ ∅ ∅ ∅.

(** From a store to a later one: every agent keeps its identity, nothing
    is removed, and an agent that is new has its clock at 0. *)
Definition step_ok (w w' : World) : Prop :=
  agents_kept w w' ∧
  objects_kept w w' ∧
  (∀ r, is_Some (qconnects w !! r) → is_Some (qconnects w' !! r)) ∧
  (∀ r, is_Some (cconnects w !! r) → is_Some (cconnects w' !! r)) ∧
  (∀ r A', agents w' !! r = Some A' → agents w !! r = None →
           Agent.time A' = 0%Qc).

Definition keeps_store {X} (m : M X) : Prop := ∀ w, step_ok w (m w).2.


End Model.

(** ** A concrete instance, for the examples *)

Module Demo.

(** Programs as the list of instructions written so far; a device writes
    its tag into the program and charges its cost. *)
Definition program : Type := list string.

Record device := Dev { tag : string; cost : Qc }.

#[export] Instance demo_capability : DeviceCapability program device :=
  λ d p _, (p ++ [tag d], cost d).

(** CPython on a 64-bit machine reports 56 bytes for an empty list and 8
    more for each element. *)
#[export] Instance demo_sizeof : SizeOf := λ l, 56 + 8 * Z.of_nat (length l).

Definition fiber : device := Dev "fiber" (num 3).
Definition laser : device := Dev "laser" (num 5).
Definition detector : device := Dev "detector" (num 7).

(** Alice (agent 1) and Bob (agent 2) share program 1.  Lists 1 and 2 are
    Alice's target and source devices, 3 and 4 Bob's.  The quantum
    connection 2 was built first, on the empty transit list 7 (list 8 is its
    reverse); the quantum connection 1 was built after it, on the transit
    list 5 (list 6 is its reverse), and is the one the agents have
    registered.  The classical connection 1 has length 2998. *)
Definition alice : Agent.t :=
  Agent.mk "Alice" 0%Qc {["Bob" := 1%positive]} {["Bob" := 1%positive]}
    [0; 1] 1%positive 1%positive 2%positive.

Definition bob : Agent.t :=
  Agent.mk "Bob" 0%Qc {["Alice" := 1%positive]} {["Alice" := 1%positive]}
    [1] 1%positive 3%positive 4%positive.

Definition link : QConnect.t :=
  QConnect.mk
    (<["Bob" := 4%positive]> {["Alice" := 2%positive]})
    (<["Bob" := 3%positive]> {["Alice" := 1%positive]})
    (<["Bob" := 6%positive]> {["Alice" := 5%positive]})
    (<["Bob" := 2%positive]> {["Alice" := 1%positive]})
    (<["Bob" := []]> {["Alice" := []]}).

(** What Bob's [put("Bob", "Alice", [1], 0)] leaves on connection 2: Bob
    has no source device. *)
Definition reply : QConnect.entry :=
  QConnect.mk_entry [1] 8%positive 1%positive
    ((0 + pulse_length_default) * len [1%Z])%Qc 0%Qc.

Definition bare : QConnect.t :=
  QConnect.mk
    (<["Bob" := 4%positive]> {["Alice" := 2%positive]})
    (<["Bob" := 3%positive]> {["Alice" := 1%positive]})
    (<["Bob" := 8%positive]> {["Alice" := 7%positive]})
    (<["Bob" := 2%positive]> {["Alice" := 1%positive]})
    (<["Bob" := []]> {["Alice" := [reply]]}).

Definition wire : CConnect.t :=
  CConnect.mk
    (<["Bob" := 2%positive]> {["Alice" := 1%positive]})
    (num 2998)
    (<["Bob" := []]> {["Alice" := []]}).

Definition device_lists : gmap ref (list device) :=
  <[8%positive := []]> (<[7%positive := []]>
    (<[6%positive := [detector; fiber]]> (<[5%positive := [fiber; detector]]>
      (<[4%positive := []]> (<[3%positive := [detector]]>
        (<[2%positive := [laser]]> {[1%positive := []]})))))).

Definition world : @World program device :=
  mkWorld
    (<[2%positive := bob]> {[1%positive := alice]})
    device_lists
    {[1%positive := ["H 0"]]}
    (<[2%positive := bare]> {[1%positive := link]})
    {[1%positive := wire]}.

(** What Alice's [put("Alice", "Bob", [0; 1], 0)] leaves on connection 1:
    her one source device, the laser, wrote into the program. *)
Definition sent : QConnect.entry :=
  QConnect.mk_entry [0; 1] 5%positive 3%positive
    ((0 + total [cost laser]) * len [0%Z; 1%Z])%Qc 0%Qc.

Definition link_pending : QConnect.t :=
  with_queues link (<["Bob" := [sent]]> (QConnect.queues link)).

Definition world_pending : @World program device :=
  mkWorld
    (<[2%positive := bob]> {[1%positive := alice]})
    device_lists
    {[1%positive := ["H 0"; "laser"]]}
    (<[2%positive := bare]> {[1%positive := link_pending]})
    {[1%positive := wire]}.

(** A program of calls, from the empty store: one program and one transit
    list, Alice and Bob, a laser for Alice, a quantum connection, some
    quantum traffic, a classical connection and some classical traffic. *)
Definition session : list (@call program device) :=
  [ NewProgram ["H 0"];
    NewList [fiber];
    NewAgent "Agent" 1 [0; 1] (Some "Alice");
    NewAgent "Agent" 1 [] (Some "Bob");
    AddDevice 1 "source" laser;
    NewQConnect 1 2 1;
    Qsend 1 "Bob" [0];
    QPut 1 "Alice" "Bob" [0; 1] 0%Qc;
    QGet 1 (PyAgent 2);
    Qrecv 2 "Alice";
    NewCConnect 1 2 (num 2998);
    Csend 1 "Bob" [1; 0; 1];
    Crecv 2 "Alice" ].

(** Two agents made without a name from the class [Agent]. *)
Definition anon_one : Agent.t :=
  Agent.mk "Agent" 0%Qc ∅ ∅ [0] 1%positive 1%positive 2%positive.

Definition anon_two : Agent.t :=
  Agent.mk "Agent" 0%Qc ∅ ∅ [] 1%positive 3%positive 4%positive.

Definition world_anon : @World program device :=
  mkWorld
    (<[2%positive := anon_two]> {[1%positive := anon_one]})
    device_lists
    {[1%positive := ["H 0"]]}
    ∅ ∅.


End Demo.

(** ** Properties *)

Section Properties.
Context {Program Device : Type} `{!DeviceCapability Program Device} `{!SizeOf}.
Implicit Types (w : @World Program Device) (self : ref) (a : Agent.t).
#[local] Existing Instances M_ret M_bind.

Lemma bind_run {A B} (m : M A) (k : A → M B) w :
  (m ≫= k) w =
  match m w with
  | (Return x, w') => k x w'
  | (Raise e, w') => (Raise e, w')
  | (Blocks, w') => (Blocks, w')
  | (Undefined, w') => (Undefined, w')
  end.
Proof. reflexivity. Qed.

Lemma bind_return {A B} (m : M A) (k : A → M B) w x w' :
  m w = (Return x, w') → (m ≫= k) w = k x w'.
Proof. intros E. rewrite bind_run, E. reflexivity. Qed.

Lemma deref_Some {V} (store : World → gmap ref V) r v w :
  store w !! r = Some v → deref store r w = (Return v, w).
Proof. intros E. unfold deref. rewrite E. reflexivity. Qed.

Lemma getitem_Some {V} (d : gmap string V) k v w :
  d !! k = Some v → getitem d k w = (Return v, w).
Proof. intros E. unfold getitem. rewrite E. reflexivity. Qed.

Lemma getitem_None {V} (d : gmap string V) k w :
  d !! k = None → getitem d k w = (Raise (KeyError k), w).
Proof. intros E. unfold getitem. rewrite E. reflexivity. Qed.

(** C9.  [add_device('source', d)] appends [d] to the agent's list of source
    devices, [add_device('target', d)] appends it to the list of target
    devices, and with any other role the call raises the exception of the
    source and leaves the store, hence both lists, as it was. *)
Theorem add_device_by_role w self a device_type device ls lt :
  agents w !! self = Some a →
  lists w !! Agent.source_devices a = Some ls →
  lists w !! Agent.target_devices a = Some lt →
  (device_type = "source" →
     add_device self device_type device w =
     (Return tt,
      mkWorld (agents w) (<[Agent.source_devices a := ls ++ [device]]> (lists w))
        (programs w) (qconnects w) (cconnects w))) ∧
  (device_type = "target" →
     add_device self device_type device w =
     (Return tt,
      mkWorld (agents w) (<[Agent.target_devices a := lt ++ [device]]> (lists w))
        (programs w) (qconnects w) (cconnects w))) ∧
  (device_type ≠ "source" → device_type ≠ "target" →
     add_device self device_type device w =
     (Raise (Exception "Invalid device type (e.g. 'source' or 'target'"), w)).
Proof.
  intros Ha Hs Ht. unfold add_device.
  rewrite (bind_return _ _ _ _ _ (deref_Some agents _ _ _ Ha)).
  repeat split.
  - intros ->. simpl. unfold list_append.
    rewrite (bind_return _ _ _ _ _ (deref_Some lists _ _ _ Hs)). reflexivity.
  - intros ->. simpl. unfold list_append.
    rewrite (bind_return _ _ _ _ _ (deref_Some lists _ _ _ Ht)). reflexivity.
  - intros N1 N2. rewrite !decide_False by assumption. reflexivity.
Qed.

(** What [set(qubits).issubset(set(owned))] decides, on the two lists. *)
Lemma issubset_lists (qubits owned : list Z) :
  set_of qubits ⊆ set_of owned ↔ ∀ x, x ∈ qubits → x ∈ owned.
Proof. unfold set_of. set_solver. Qed.

(** C5.  When some qubit of the payload is not among the sender's qubits,
    [qsend] raises the ownership exception and the store is the one it
    started from: the sender's qubits and clock and the queues of every
    connection are untouched. *)
Theorem qsend_not_owned w self a target qubits :
  agents w !! self = Some a →
  (∃ x, x ∈ qubits ∧ x ∉ Agent.qubits a) →
  qsend self target qubits w =
  (Raise (Exception "Agent cannot send qubits they do not have"), w).
Proof.
  intros Ha (x & Hin & Hout). unfold qsend.
  rewrite (bind_return _ _ _ _ _ (deref_Some agents _ _ _ Ha)).
  rewrite decide_False; [reflexivity|].
  rewrite issubset_lists. intros Hsub. apply Hout, Hsub, Hin.
Qed.

(** The store [qsend] leaves when the payload is owned and a connection is
    registered under the target: the payload is taken out of the sender's
    qubits, and the call of [put], one argument short, raises. *)
Lemma qsend_owned_run w self a target qubits c :
  agents w !! self = Some a →
  (∀ x, x ∈ qubits → x ∈ Agent.qubits a) →
  Agent.qconnections a !! target = Some c →
  qsend self target qubits w =
  (Raise (TypeError "put() missing 1 required positional argument: 'source_time'"),
   mkWorld
     (<[self := with_qubits a (list_of (set_of (Agent.qubits a) ∖ set_of qubits))]>
        (agents w))
     (lists w) (programs w) (qconnects w) (cconnects w)).
Proof.
  intros Ha Hsub Hc. unfold qsend.
  rewrite (bind_return _ _ _ _ _ (deref_Some agents _ _ _ Ha)).
  rewrite decide_True by (by apply issubset_lists).
  rewrite bind_run. cbn [set_agent].
  erewrite bind_return; last first.
  { apply deref_Some. cbn. apply lookup_insert_eq. }
  erewrite bind_return; last first.
  { apply getitem_Some. exact Hc. }
  reflexivity.
Qed.

(** C1 (the code departs from it).  With an owned payload and a connection
    registered under the target, [qsend] does take the payload out of the
    sender's qubits, but then raises [TypeError]: nothing is put on a queue
    and no delay comes back. *)
Theorem qsend_owned_raises w self a target qubits c :
  agents w !! self = Some a →
  (∀ x, x ∈ qubits → x ∈ Agent.qubits a) →
  Agent.qconnections a !! target = Some c →
  ∃ w',
    qsend self target qubits w =
    (Raise (TypeError "put() missing 1 required positional argument: 'source_time'"), w') ∧
    qconnects w' = qconnects w ∧
    ∃ a', agents w' !! self = Some a' ∧
          set_of (Agent.qubits a') = set_of (Agent.qubits a) ∖ set_of qubits.
Proof.
  intros Ha Hsub Hc. eexists. split; [by eapply qsend_owned_run|].
  split; [reflexivity|]. eexists. split; [apply lookup_insert_eq|].
  cbn. unfold list_of, set_of. apply list_to_set_elements_L.
Qed.

(** C10.  Whatever its outcome, [qsend] changes no attribute of the sender
    but [qubits]: the clock, the program, the two device lists and the two
    registries are the ones it started with, and so are the contents of
    every device list and program.  In particular no delay is added to the
    sender's clock. *)
Theorem qsend_frame w self a target qubits :
  agents w !! self = Some a →
  ∃ r w' a',
    qsend self target qubits w = (r, w') ∧
    agents w' !! self = Some a' ∧
    Agent.name a' = Agent.name a ∧
    Agent.time a' = Agent.time a ∧
    Agent.program a' = Agent.program a ∧
    Agent.source_devices a' = Agent.source_devices a ∧
    Agent.target_devices a' = Agent.target_devices a ∧
    Agent.qconnections a' = Agent.qconnections a ∧
    Agent.cconnections a' = Agent.cconnections a ∧
    lists w' = lists w ∧ programs w' = programs w.
Proof.
  intros Ha.
  destruct (decide (set_of qubits ⊆ set_of (Agent.qubits a))) as [Hsub|Hsub].
  - destruct (Agent.qconnections a !! target) as [c|] eqn:Hc.
    + eexists _, _, _. split.
      { eapply qsend_owned_run; [done| by apply issubset_lists | done]. }
      split; [apply lookup_insert_eq|]. done.
    + eexists _, _, _. split.
      { unfold qsend.
        rewrite (bind_return _ _ _ _ _ (deref_Some agents _ _ _ Ha)).
        rewrite decide_True by done.
        rewrite bind_run. cbn [set_agent].
        erewrite bind_return; last first.
        { apply deref_Some. cbn. apply lookup_insert_eq. }
        rewrite bind_run. cbn [with_qubits Agent.qconnections].
        rewrite getitem_None by done. reflexivity. }
      split; [apply lookup_insert_eq|]. done.
  - eexists _, _, a. split.
    { unfold qsend.
      rewrite (bind_return _ _ _ _ _ (deref_Some agents _ _ _ Ha)).
      rewrite decide_False by done. reflexivity. }
    done.
Qed.

(** ** Running a chain of devices *)

Lemma total_app (xs ys : list Qc) : total (xs ++ ys) = (total xs + total ys)%Qc.
Proof.
  unfold total. induction xs as [|x xs IH]; cbn.
  - ring.
  - rewrite IH. ring.
Qed.

Lemma chain_delays_app (ds1 ds2 : list Device) (p : Program) qubits :
  chain_delays (ds1 ++ ds2) p qubits =
  chain_delays ds1 p qubits ++ chain_delays ds2 (chain_program ds1 p qubits) qubits.
Proof.
  revert p. induction ds1 as [|d ds1 IH]; intros p; cbn; [done|].
  by rewrite IH.
Qed.

Lemma chain_program_app (ds1 ds2 : list Device) (p : Program) qubits :
  chain_program (ds1 ++ ds2) p qubits =
  chain_program ds2 (chain_program ds1 p qubits) qubits.
Proof. revert p. induction ds1 as [|d ds1 IH]; intros p; cbn; [done|]. apply IH. Qed.

Lemma apply_each_run (devices : list Device) (r : ref) qubits (delay : Qc) w p :
  programs w !! r = Some p →
  apply_each devices r qubits delay w =
  (Return (delay + total (chain_delays devices p qubits))%Qc,
   mkWorld (agents w) (lists w)
     (<[r := chain_program devices p qubits]> (programs w))
     (qconnects w) (cconnects w)).
Proof.
  revert delay w p. induction devices as [|d ds IH]; intros delay w p Hp.
  - cbn. unfold ret. f_equal.
    + f_equal. unfold total. cbn. ring.
    + destruct w; cbn in *. f_equal. by rewrite insert_id.
  - cbn [apply_each]. unfold call_apply.
    rewrite bind_run.
    rewrite (bind_return _ _ _ _ _ (deref_Some programs _ _ _ Hp)).
    destruct (device_apply d p qubits) as [p' x] eqn:E.
    unfold mbind, M_bind, bind, set_program, ret.
    rewrite (IH _ _ p') by (cbn; apply lookup_insert_eq).
    cbn. rewrite E. cbn. f_equal.
    + f_equal. unfold total. cbn. ring.
    + f_equal. by rewrite insert_insert_eq.
Qed.

(** ** Running [put] and [get] of a quantum connection *)

Ltac unfold_monad :=
  unfold mbind, M_bind, bind, mret, M_ret, ret, raise, blocks.

Lemma QConnect_put_run w (c : ref) (C : QConnect.t) source target qubits t
    (ls lt lg a : ref) (A : Agent.t) (devs : list Device) (p : Program) q :
  qconnects w !! c = Some C →
  QConnect.source_devices C !! source = Some ls →
  QConnect.transit_devices C !! source = Some lt →
  QConnect.target_devices C !! target = Some lg →
  QConnect.agents C !! source = Some a →
  agents w !! a = Some A →
  lists w !! ls = Some devs →
  programs w !! Agent.program A = Some p →
  QConnect.queues C !! target = Some q →
  let source_delay :=
    match devs with
    | [] => (0 + pulse_length_default)%Qc
    | _ => (0 + total (chain_delays devs p qubits))%Qc
    end in
  QConnect_put c source target qubits t w =
  (Return (source_delay * len qubits)%Qc,
   mkWorld (agents w) (lists w)
     (<[Agent.program A := chain_program devs p qubits]> (programs w))
     (<[c := with_queues C
          (<[target := q ++ [QConnect.mk_entry qubits lt lg
                               (source_delay * len qubits)%Qc t]]>
             (QConnect.queues C))]> (qconnects w))
     (cconnects w)).
Proof.
  intros Hc Hls Hlt Hlg Ha HA Hdevs Hp Hq source_delay.
  unfold QConnect_put.
  rewrite (bind_return _ _ _ _ _ (deref_Some qconnects _ _ _ Hc)).
  rewrite (bind_return _ _ _ _ _ (getitem_Some _ _ _ _ Hls)).
  rewrite (bind_return _ _ _ _ _ (getitem_Some _ _ _ _ Hlt)).
  rewrite (bind_return _ _ _ _ _ (getitem_Some _ _ _ _ Hlg)).
  rewrite (bind_return _ _ _ _ _ (getitem_Some _ _ _ _ Ha)).
  rewrite (bind_return _ _ _ _ _ (deref_Some agents _ _ _ HA)).
  rewrite (bind_return _ _ _ _ _ (deref_Some lists _ _ _ Hdevs)).
  destruct devs as [|d devs].
  - unfold QConnect_queue_put. unfold_monad. unfold deref, set_qconnect.
    cbn. rewrite Hc. unfold getitem. rewrite Hq. cbn.
    destruct w; cbn in *. by rewrite (insert_id _ _ _ Hp).
  - rewrite bind_run, (apply_each_run _ _ _ _ _ _ Hp).
    unfold QConnect_queue_put. unfold_monad. unfold deref, set_qconnect.
    cbn. rewrite Hc. unfold getitem. rewrite Hq. reflexivity.
Qed.

Lemma getattr_name_agent w (b : ref) (B : Agent.t) :
  agents w !! b = Some B → getattr_name (PyAgent b) w = (Return (Agent.name B), w).
Proof. intros Hb. cbn. by rewrite (bind_return _ _ _ _ _ (deref_Some agents _ _ _ Hb)). Qed.

Lemma getattr_qubits_agent w (b : ref) (B : Agent.t) :
  agents w !! b = Some B → getattr_qubits (PyAgent b) w = (Return (Agent.qubits B), w).
Proof. intros Hb. cbn. by rewrite (bind_return _ _ _ _ _ (deref_Some agents _ _ _ Hb)). Qed.

Lemma setattr_qubits_agent w (b : ref) (B : Agent.t) qs :
  agents w !! b = Some B →
  setattr_qubits (PyAgent b) qs w =
  (Return tt, mkWorld (<[b := with_qubits B qs]> (agents w)) (lists w)
                (programs w) (qconnects w) (cconnects w)).
Proof. intros Hb. cbn. by rewrite (bind_return _ _ _ _ _ (deref_Some agents _ _ _ Hb)). Qed.

Lemma QConnect_queue_get_run w (c : ref) (C : QConnect.t) name e rest :
  qconnects w !! c = Some C →
  QConnect.queues C !! name = Some (e :: rest) →
  QConnect_queue_get c name w =
  (Return e, mkWorld (agents w) (lists w) (programs w)
               (<[c := with_queues C (<[name := rest]> (QConnect.queues C))]>
                  (qconnects w))
               (cconnects w)).
Proof.
  intros Hc Hq. unfold QConnect_queue_get.
  rewrite (bind_return _ _ _ _ _ (deref_Some qconnects _ _ _ Hc)).
  by rewrite (bind_return _ _ _ _ _ (getitem_Some _ _ _ _ Hq)).
Qed.

Lemma QConnect_queue_get_empty w (c : ref) (C : QConnect.t) name :
  qconnects w !! c = Some C →
  QConnect.queues C !! name = Some [] →
  QConnect_queue_get c name w = (Blocks, w).
Proof.
  intros Hc Hq. unfold QConnect_queue_get.
  rewrite (bind_return _ _ _ _ _ (deref_Some qconnects _ _ _ Hc)).
  by rewrite (bind_return _ _ _ _ _ (getitem_Some _ _ _ _ Hq)).
Qed.

Lemma QConnect_get_run w (c : ref) (C : QConnect.t) (b b' : ref)
    (B B' : Agent.t) (e : QConnect.entry) rest (lt lg : list Device) (p : Program) :
  qconnects w !! c = Some C →
  agents w !! b = Some B →
  QConnect.queues C !! Agent.name B = Some (e :: rest) →
  QConnect.agents C !! Agent.name B = Some b' →
  agents w !! b' = Some B' →
  lists w !! QConnect.e_transit e = Some lt →
  lists w !! QConnect.e_target e = Some lg →
  programs w !! Agent.program B' = Some p →
  let qubits := QConnect.e_qubits e in
  let travel_delay :=
    (match lg with
     | [] =>
         match lt with
         | [] => 0 + fiber_length_default / signal_speed
         | _ => 0
         end + 0
     | _ =>
         match lt with
         | [] => 0 + fiber_length_default / signal_speed
         | _ => 0
         end
     end + total (chain_delays (lt ++ lg) p qubits))%Qc in
  QConnect_get c (PyAgent b) w =
  (Return (qubits,
           (travel_delay * len qubits + QConnect.e_source_delay e)%Qc,
           QConnect.e_source_time e),
   mkWorld
     (<[b := with_qubits B (list_of (set_of (qubits ++ Agent.qubits B)))]> (agents w))
     (lists w)
     (<[Agent.program B' := chain_program (lt ++ lg) p qubits]> (programs w))
     (<[c := with_queues C (<[Agent.name B := rest]> (QConnect.queues C))]>
        (qconnects w))
     (cconnects w)).
Proof.
  intros Hc Hb Hq Hreg Hb' Hlt Hlg Hp qubits travel_delay.
  unfold QConnect_get.
  rewrite (bind_return _ _ _ _ _ (deref_Some qconnects _ _ _ Hc)).
  rewrite (bind_return _ _ _ _ _ (getattr_name_agent _ _ _ Hb)).
  rewrite (bind_return _ _ _ _ _ (QConnect_queue_get_run _ _ _ _ _ _ Hc Hq)).
  erewrite bind_return; last by apply getattr_qubits_agent.
  erewrite bind_return; last by apply setattr_qubits_agent.
  erewrite bind_return; last first.
  { apply getattr_name_agent. cbn. apply lookup_insert_eq. }
  cbn [with_qubits Agent.name agents lists programs].
  rewrite (bind_return _ _ _ _ _ (getitem_Some _ _ _ _ Hreg)).
  assert (∃ B'', <[b := with_qubits B (list_of (set_of
              (QConnect.e_qubits e ++ Agent.qubits B)))]> (agents w) !! b' = Some B''
            ∧ Agent.program B'' = Agent.program B') as (B'' & HB'' & Hprog).
  { destruct (decide (b = b')) as [->|Hne].
    - rewrite lookup_insert_eq. eexists. split; [done|].
      rewrite Hb in Hb'. by injection Hb' as ->.
    - rewrite lookup_insert_ne by done. eauto. }
  erewrite bind_return; last first.
  { apply deref_Some. cbn. exact HB''. }
  erewrite bind_return; last first.
  { apply deref_Some. cbn. exact Hlt. }
  erewrite bind_return; last first.
  { apply deref_Some. cbn. exact Hlg. }
  rewrite Hprog.
  erewrite bind_return; last first.
  { apply apply_each_run. cbn. exact Hp. }
  cbn. unfold ret. subst travel_delay qubits.
  destruct lt, lg; reflexivity.
Qed.

Lemma put_context_run w c C source target lt lg A devs p q qubits t :
  put_context w c C source target lt lg A devs p q →
  let source_delay :=
    match devs with
    | [] => (0 + pulse_length_default)%Qc
    | _ => (0 + total (chain_delays devs p qubits))%Qc
    end in
  QConnect_put c source target qubits t w =
  (Return (source_delay * len qubits)%Qc,
   mkWorld (agents w) (lists w)
     (<[Agent.program A := chain_program devs p qubits]> (programs w))
     (<[c := with_queues C
          (<[target := q ++ [QConnect.mk_entry qubits lt lg
                               (source_delay * len qubits)%Qc t]]>
             (QConnect.queues C))]> (qconnects w))
     (cconnects w)).
Proof.
  intros (Hc & (ls & Hls & Hdevs) & Hlt & Hlg & (a & Ha & HA) & Hp & Hq).
  by eapply QConnect_put_run.
Qed.

Lemma get_context_run w c C b B e rest lt lg pr p :
  get_context w c C b B e rest lt lg pr p →
  let qubits := QConnect.e_qubits e in
  let travel_delay :=
    (match lg with
     | [] =>
         match lt with
         | [] => 0 + fiber_length_default / signal_speed
         | _ => 0
         end + 0
     | _ =>
         match lt with
         | [] => 0 + fiber_length_default / signal_speed
         | _ => 0
         end
     end + total (chain_delays (lt ++ lg) p qubits))%Qc in
  QConnect_get c (PyAgent b) w =
  (Return (qubits,
           (travel_delay * len qubits + QConnect.e_source_delay e)%Qc,
           QConnect.e_source_time e),
   mkWorld
     (<[b := with_qubits B (list_of (set_of (qubits ++ Agent.qubits B)))]> (agents w))
     (lists w)
     (<[pr := chain_program (lt ++ lg) p qubits]> (programs w))
     (<[c := with_queues C (<[Agent.name B := rest]> (QConnect.queues C))]>
        (qconnects w))
     (cconnects w)).
Proof.
  intros (Hc & Hb & Hq & (b' & B' & Hreg & HB' & <-) & Hlt & Hlg & Hp).
  by eapply QConnect_get_run.
Qed.

(** The default travel delay is nothing: the default fiber has length 0. *)
Lemma default_travel_delay : (fiber_length_default / signal_speed)%Qc = 0%Qc.
Proof. unfold fiber_length_default. field. by vm_compute. Qed.

(** C3.  [put] with no source device returns, and stores in the entry, the
    default pulse length times the number of qubits.  [get] on an entry of
    [n] qubits returns as delay the source delay stored in the entry plus
    [n] times the sum of the delays of the devices of the transit list
    followed by those of the target list; with both lists empty that travel
    part is [fiber_length_default / signal_speed] times [n]. *)
Theorem delay_accounting :
  (∀ w c C source target lt lg A (p : Program) q qubits t,
     put_context w c C source target lt lg A [] p q →
     ∃ w',
       QConnect_put c source target qubits t w =
         (Return (pulse_length_default * len qubits)%Qc, w') ∧
       queue_of w' c target =
         Some (q ++ [QConnect.mk_entry qubits lt lg
                       (pulse_length_default * len qubits)%Qc t])) ∧
  (∀ w c C b B e rest (lt lg : list Device) pr (p : Program),
     get_context w c C b B e rest lt lg pr p →
     let qubits := QConnect.e_qubits e in
     ∃ delay w',
       QConnect_get c (PyAgent b) w =
         (Return (qubits, delay, QConnect.e_source_time e), w') ∧
       delay = (QConnect.e_source_delay e +
                total (chain_delays (lt ++ lg) p qubits) * len qubits)%Qc ∧
       (lt = [] → lg = [] →
        delay = (QConnect.e_source_delay e +
                 fiber_length_default / signal_speed * len qubits)%Qc)).
Proof.
  split.
  - intros * Hctx. pose proof Hctx as (Hc & _).
    pose proof (put_context_run _ _ _ _ _ _ _ _ _ _ _ qubits t Hctx) as Hrun.
    cbn zeta iota in Hrun.
    replace (0 + pulse_length_default)%Qc with pulse_length_default in Hrun by ring.
    eexists. split; [exact Hrun|].
    unfold queue_of. cbn. rewrite lookup_insert_eq. cbn.
    by rewrite lookup_insert_eq.
  - intros * Hctx qubits. subst qubits. eexists _, _. split; [|split].
    + by rewrite (get_context_run _ _ _ _ _ _ _ _ _ _ _ Hctx).
    + rewrite default_travel_delay. destruct lt, lg; ring.
    + intros -> ->. rewrite default_travel_delay. cbn. unfold total. cbn. ring.
Qed.

(** ** The merge of a received payload *)

Lemma set_of_list_of (s : gset Z) : set_of (list_of s) = s.
Proof. apply list_to_set_elements_L. Qed.

Lemma list_of_NoDup (s : gset Z) : NoDup (list_of s).
Proof. apply NoDup_elements. Qed.

Lemma set_of_app (l1 l2 : list Z) : set_of (l1 ++ l2) = set_of l1 ∪ set_of l2.
Proof. apply list_to_set_app_L. Qed.

Lemma elem_of_set_of (x : Z) (l : list Z) : x ∈ set_of l ↔ x ∈ l.
Proof. apply elem_of_list_to_set. Qed.

Lemma elem_of_list_of (x : Z) (s : gset Z) : x ∈ list_of s ↔ x ∈ s.
Proof. apply elem_of_elements. Qed.

(** C7.  The qubits of the receiver after [get] are, as a set, the union of
    the payload and of the qubits it had, and the list holds no qubit
    twice.  When every qubit of the payload was already owned, the set is
    the one before, of the same size; and when moreover the list before had
    no qubit twice, the list after is a rearrangement of it. *)
Theorem get_merges_by_union w c C b B e rest (lt lg : list Device) pr (p : Program) :
  get_context w c C b B e rest lt lg pr p →
  ∃ r w' B1,
    QConnect_get c (PyAgent b) w = (Return r, w') ∧
    agents w' !! b = Some B1 ∧
    set_of (Agent.qubits B1) = set_of (QConnect.e_qubits e) ∪ set_of (Agent.qubits B) ∧
    (∀ x, x ∈ Agent.qubits B1 ↔ x ∈ QConnect.e_qubits e ∨ x ∈ Agent.qubits B) ∧
    NoDup (Agent.qubits B1) ∧
    ((∀ x, x ∈ QConnect.e_qubits e → x ∈ Agent.qubits B) →
       set_of (Agent.qubits B1) = set_of (Agent.qubits B) ∧
       length (Agent.qubits B1) = size (set_of (Agent.qubits B)) ∧
       (NoDup (Agent.qubits B) → Agent.qubits B1 ≡ₚ Agent.qubits B)).
Proof.
  intros Hctx. eexists _, _, _. split; [by apply get_context_run|].
  split; [apply lookup_insert_eq|]. cbn [with_qubits Agent.qubits].
  rewrite set_of_list_of, set_of_app.
  split; [reflexivity|]. split; [|split].
  - intros x.
    by rewrite elem_of_list_of, elem_of_union, !elem_of_set_of.
  - apply list_of_NoDup.
  - intros Hsub%issubset_lists.
    assert (Hsame : set_of (QConnect.e_qubits e) ∪ set_of (Agent.qubits B)
                    = set_of (Agent.qubits B))
      by (by apply subseteq_union_1_L).
    rewrite !Hsame.
    split; [reflexivity|]. split; [reflexivity|].
    intros Hnd. unfold list_of, set_of. by apply elements_list_to_set.
Qed.

(** ** Construction of a quantum connection *)

Lemma QConnect_init_run w (one two D : ref) (A1 A2 : Agent.t) (l : list Device) :
  agents w !! one = Some A1 →
  agents w !! two = Some A2 →
  lists w !! D = Some l →
  let c := fresh (dom (qconnects w)) in
  let reversed := fresh (dom (lists w)) in
  let n1 := Agent.name A1 in
  let n2 := Agent.name A2 in
  ∃ agents' reg1 reg2,
  QConnect_init one two D w =
  (Return c,
   mkWorld agents'
     (<[reversed := reverse l]> (lists w))
     (programs w)
     (<[c := QConnect.mk
          (<[n2 := Agent.source_devices A2]> {[n1 := Agent.source_devices A1]})
          (<[n2 := Agent.target_devices A2]> {[n1 := Agent.target_devices A1]})
          (<[n2 := reversed]> {[n1 := D]})
          (<[n2 := two]> {[n1 := one]})
          (<[n2 := []]> {[n1 := []]})]> (qconnects w))
     (cconnects w)) ∧
  agents' !! one = Some (with_qconnections A1 reg1) ∧
  agents' !! two = Some (with_qconnections A2 reg2).
Proof.
  intros H1 H2 HD c reversed n1 n2. unfold QConnect_init.
  rewrite bind_run. cbn beta iota.
  rewrite (bind_return _ _ _ _ _ (deref_Some agents _ _ _ H1)).
  rewrite (bind_return _ _ _ _ _ (deref_Some agents _ _ _ H2)).
  rewrite (bind_return _ _ _ _ _ (deref_Some lists _ _ _ HD)).
  rewrite bind_run. cbn [new_list].
  erewrite bind_return; last first.
  { apply deref_Some. cbn. exact H1. }
  rewrite bind_run. cbn [set_agent agents lists programs qconnects cconnects].
  destruct (decide (one = two)) as [->|Hne].
  - erewrite bind_return; last first.
    { apply deref_Some. cbn. apply lookup_insert_eq. }
    rewrite H1 in H2. injection H2 as ->.
    eexists _, _, _. split; [reflexivity|]. cbn.
    split; apply lookup_insert_eq.
  - erewrite bind_return; last first.
    { apply deref_Some. cbn. rewrite lookup_insert_ne by done. exact H2. }
    eexists _, _, _. split; [reflexivity|]. cbn. split.
    + rewrite lookup_insert_ne by done. apply lookup_insert_eq.
    + apply lookup_insert_eq.
Qed.

(** C8.  The connection built from [agent_one], [agent_two] and the transit
    list [D] holds, from its construction on, two transit lists: the list
    [D] itself under the name of [agent_one] and, under the name of
    [agent_two], a new list whose content is the reverse of the content of
    [D].  Agent names are unique (so says the source, of [__hash__]); when
    the two names differ the list found under the name of [agent_one] is
    [D].  [put] hands the entry the list registered under its source; [get]
    invokes the transit devices of the entry, in order, and then its target
    devices, in order: the program is left as that sequence leaves it and
    the delays summed are those the devices return along it. *)
Theorem transit_chains_by_direction :
  (∀ w (one two D : ref) (A1 A2 : Agent.t) (l : list Device),
     agents w !! one = Some A1 →
     agents w !! two = Some A2 →
     lists w !! D = Some l →
     ∃ c w' C r2,
       QConnect_init one two D w = (Return c, w') ∧
       qconnects w' !! c = Some C ∧
       QConnect.transit_devices C =
         <[Agent.name A2 := r2]> {[Agent.name A1 := D]} ∧
       lists w' !! D = Some l ∧
       lists w' !! r2 = Some (reverse l) ∧
       QConnect.transit_devices C !! Agent.name A2 = Some r2 ∧
       (Agent.name A1 ≠ Agent.name A2 →
        QConnect.transit_devices C !! Agent.name A1 = Some D)) ∧
  (∀ w c C source target lt lg A (devs : list Device) (p : Program) q qubits t,
     put_context w c C source target lt lg A devs p q →
     ∃ d w' e,
       QConnect_put c source target qubits t w = (Return d, w') ∧
       queue_of w' c target = Some (q ++ [e]) ∧
       QConnect.transit_devices C !! source = Some (QConnect.e_transit e)) ∧
  (∀ w c C b B e rest (lt lg : list Device) pr (p : Program),
     get_context w c C b B e rest lt lg pr p →
     let qubits := QConnect.e_qubits e in
     let after_transit := chain_program lt p qubits in
     ∃ delay w',
       QConnect_get c (PyAgent b) w =
         (Return (qubits, delay, QConnect.e_source_time e), w') ∧
       programs w' !! pr = Some (chain_program lg after_transit qubits) ∧
       delay = (QConnect.e_source_delay e +
                (total (chain_delays lt p qubits) +
                 total (chain_delays lg after_transit qubits)) * len qubits)%Qc).
Proof.
  split; [|split].
  - intros * H1 H2 HD.
    destruct (QConnect_init_run _ _ _ _ _ _ _ H1 H2 HD)
      as (agents' & reg1 & reg2 & Hrun & _).
    eexists _, _, _, _. split; [exact Hrun|].
    cbn [qconnects lists]. split; [apply lookup_insert_eq|].
    cbn [QConnect.transit_devices].
    assert (fresh (dom (lists w)) ≠ D) as Hfresh.
    { intros E. apply (is_fresh (dom (lists w))). rewrite E.
      apply elem_of_dom. eauto. }
    split; [reflexivity|]. split; [by rewrite lookup_insert_ne|].
    split; [apply lookup_insert_eq|]. split; [apply lookup_insert_eq|].
    intros Hne. rewrite lookup_insert_ne by done. apply lookup_singleton_eq.
  - intros * Hctx. pose proof Hctx as (Hc & _ & Hlt & _).
    eexists _, _, _. split; [by apply put_context_run|].
    unfold queue_of. cbn. rewrite lookup_insert_eq. cbn.
    rewrite lookup_insert_eq. split; [reflexivity|]. exact Hlt.
  - intros * Hctx qubits after_transit. subst qubits after_transit.
    eexists _, _. split; [by apply get_context_run|].
    cbn [programs]. split.
    + rewrite lookup_insert_eq. by rewrite chain_program_app.
    + rewrite default_travel_delay, chain_delays_app, total_app.
      destruct lt, lg; ring.
Qed.

(** ** One direction of a connection is a queue *)

Lemma QConnect_get_blocks w (c : ref) (C : QConnect.t) (b : ref) (B : Agent.t) :
  qconnects w !! c = Some C →
  agents w !! b = Some B →
  QConnect.queues C !! Agent.name B = Some [] →
  QConnect_get c (PyAgent b) w = (Blocks, w).
Proof.
  intros Hc Hb Hq. unfold QConnect_get.
  rewrite (bind_return _ _ _ _ _ (deref_Some qconnects _ _ _ Hc)).
  rewrite (bind_return _ _ _ _ _ (getattr_name_agent _ _ _ Hb)).
  by rewrite bind_run, (QConnect_queue_get_empty _ _ _ _ Hc Hq).
Qed.

Lemma direction_state_blocks w c source target b :
  direction_state w c source target b [] →
  QConnect_get c (PyAgent b) w = (Blocks, w).
Proof.
  intros (C & q & B & Hc & Hq & Hpending & _ & _ & _ & _ & _ & Hb & Hname & _).
  symmetry in Hpending. apply map_eq_nil in Hpending. subst q target.
  by eapply QConnect_get_blocks.
Qed.

Lemma direction_state_put w c source target b pending qubits t :
  direction_state w c source target b pending →
  ∃ d w',
    QConnect_put c source target qubits t w = (Return d, w') ∧
    direction_state w' c source target b (pending ++ [(qubits, t)]).
Proof.
  intros (C & q & B & Hc & Hq & Hpending & Hres & (ls & Hls & [devs Hdevs])
          & (lt & Hlt & Hlt') & (lg & Hlg & Hlg') & (a & A & Ha & HA & [p Hp])
          & Hb & Hname & (b' & B' & Hreg & HB' & Hp')).
  eexists _, _. split.
  { eapply (put_context_run w c C source target lt lg A devs p q).
    repeat split; eauto. }
  eexists _, _, B. cbn [qconnects agents lists programs].
  split; [apply lookup_insert_eq|].
  cbn [with_queues QConnect.queues QConnect.source_devices QConnect.agents
       QConnect.transit_devices QConnect.target_devices].
  split; [apply lookup_insert_eq|].
  split; [by rewrite map_app, Hpending|].
  split.
  { apply Forall_app. split; [done|]. by apply Forall_singleton. }
  split; [eauto|]. split; [eauto|]. split; [eauto|].
  split.
  { exists a, A. split; [done|]. split; [done|].
    rewrite lookup_insert_eq. eauto. }
  split; [done|]. split; [done|].
  exists b', B'. split; [done|]. split; [done|].
  apply lookup_insert_is_Some'. by right.
Qed.

Lemma direction_state_get w c source target b qubits t pending :
  direction_state w c source target b ((qubits, t) :: pending) →
  ∃ d w',
    QConnect_get c (PyAgent b) w = (Return (qubits, d, t), w') ∧
    direction_state w' c source target b pending.
Proof.
  intros (C & q & B & Hc & Hq & Hpending & Hres & (ls & Hls & Hdevs)
          & (lt & Hlt & Hlt') & (lg & Hlg & Hlg') & (a & A & Ha & HA & Hp)
          & Hb & Hname & (b' & B' & Hreg & HB' & [pb Hpb])).
  destruct q as [|e rest]; [done|].
  cbn in Hpending. injection Hpending as -> -> ->.
  apply Forall_cons_1 in Hres as [[[elt Helt] [elg Helg]] Hres].
  subst target.
  eexists _, _. split.
  { eapply (get_context_run w c C b B e rest elt elg (Agent.program B') pb).
    repeat split; eauto. }
  set (B1 := with_qubits B _).
  assert (Hkeep : ∀ r X, agents w !! r = Some X →
            ∃ X', <[b := B1]> (agents w) !! r = Some X' ∧
                  Agent.program X' = Agent.program X).
  { intros r X Hr. destruct (decide (b = r)) as [->|Hne].
    - rewrite lookup_insert_eq. eexists. split; [done|].
      rewrite Hb in Hr. by injection Hr as ->.
    - rewrite lookup_insert_ne by done. eauto. }
  eexists _, _, B1. cbn [qconnects agents lists programs].
  split; [apply lookup_insert_eq|].
  cbn [with_queues QConnect.queues QConnect.source_devices QConnect.agents
       QConnect.transit_devices QConnect.target_devices].
  split; [apply lookup_insert_eq|].
  split; [done|]. split; [done|].
  split; [eauto|]. split; [eauto|]. split; [eauto|].
  split.
  { destruct (Hkeep _ _ HA) as (A' & HA' & EA).
    exists a, A'. split; [done|]. split; [done|].
    rewrite EA. apply lookup_insert_is_Some'. by right. }
  split; [apply lookup_insert_eq|]. split; [done|].
  destruct (Hkeep _ _ HB') as (B'' & HB'' & EB).
  exists b', B''. split; [done|]. split; [done|].
  rewrite EB, lookup_insert_eq. eauto.
Qed.

(** A dict display of two keys, looked up at the first: the value of the
    second key when the keys coincide. *)
Lemma lookup_pair_first {V} (k1 k2 : string) (v1 v2 : V) (P : V → Prop) :
  P v1 → P v2 →
  ∃ v, (<[k2 := v2]> {[k1 := v1]} : gmap string V) !! k1 = Some v ∧ P v.
Proof.
  intros H1 H2. destruct (decide (k2 = k1)) as [->|Hne].
  - exists v2. by rewrite lookup_insert_eq.
  - exists v1. by rewrite lookup_insert_ne, lookup_singleton_eq.
Qed.

(** Every connection starts in that state: for agents whose device lists
    and programs are in the store, [QConnect(agent_one, agent_two, D)]
    leaves both directions ready, with nothing pending. *)
Lemma QConnect_init_ready w (one two D : ref) (A1 A2 : Agent.t) (l : list Device) :
  agents w !! one = Some A1 →
  agents w !! two = Some A2 →
  lists w !! D = Some l →
  is_Some (lists w !! Agent.source_devices A1) →
  is_Some (lists w !! Agent.target_devices A1) →
  is_Some (lists w !! Agent.source_devices A2) →
  is_Some (lists w !! Agent.target_devices A2) →
  is_Some (programs w !! Agent.program A1) →
  is_Some (programs w !! Agent.program A2) →
  ∃ c w',
    QConnect_init one two D w = (Return c, w') ∧
    direction_state w' c (Agent.name A1) (Agent.name A2) two [] ∧
    direction_state w' c (Agent.name A2) (Agent.name A1) one [].
Proof.
  intros H1 H2 HD Hs1 Ht1 Hs2 Ht2 Hp1 Hp2.
  destruct (QConnect_init_run _ _ _ _ _ _ _ H1 H2 HD)
    as (agents' & reg1 & reg2 & Hrun & Hone & Htwo).
  eexists _, _. split; [exact Hrun|].
  set (lists' := <[fresh (dom (lists w)) := reverse l]> (lists w)).
  assert (Hkeep : ∀ r, is_Some (lists w !! r) → is_Some (lists' !! r)).
  { intros r Hr. apply lookup_insert_is_Some'. by right. }
  assert (Hrev : is_Some (lists' !! fresh (dom (lists w)))).
  { apply lookup_insert_is_Some'. by left. }
  assert (HD' : is_Some (lists' !! D)) by (apply Hkeep; eauto).
  split.
  - eexists _, [], _. cbn [qconnects agents lists programs].
    split; [apply lookup_insert_eq|].
    cbn [QConnect.queues QConnect.source_devices QConnect.agents
         QConnect.transit_devices QConnect.target_devices].
    split; [apply lookup_insert_eq|]. split; [done|]. split; [done|].
    split; [apply lookup_pair_first; auto|].
    split; [apply lookup_pair_first; auto|].
    split; [eexists; split; [apply lookup_insert_eq|auto]|].
    split.
    { destruct (lookup_pair_first (Agent.name A1) (Agent.name A2) one two
                  (λ r : ref, ∃ A, agents' !! r = Some A ∧
                             is_Some (programs w !! Agent.program A)))
        as (r & Hr & A & HA & HpA); eauto. }
    split; [exact Htwo|]. split; [done|].
    eexists _, _. split; [apply lookup_insert_eq|]. split; [exact Htwo|done].
  - eexists _, [], _. cbn [qconnects agents lists programs].
    split; [apply lookup_insert_eq|].
    cbn [QConnect.queues QConnect.source_devices QConnect.agents
         QConnect.transit_devices QConnect.target_devices].
    split.
    { destruct (lookup_pair_first (Agent.name A1) (Agent.name A2)
                  ([] : list QConnect.entry) [] (λ q, q = []))
        as (q & Hq & ->); done. }
    split; [done|]. split; [done|].
    split; [eexists; split; [apply lookup_insert_eq|auto]|].
    split; [eexists; split; [apply lookup_insert_eq|auto]|].
    split; [apply lookup_pair_first; auto|].
    split.
    { eexists _, _. split; [apply lookup_insert_eq|]. split; [exact Htwo|done]. }
    split; [exact Hone|]. split; [done|].
    destruct (lookup_pair_first (Agent.name A1) (Agent.name A2) one two
                (λ r : ref, ∃ A, agents' !! r = Some A ∧
                           is_Some (programs w !! Agent.program A)))
      as (r & Hr & A & HA & HpA); eauto.
Qed.

(** C4.  On a direction with nothing pending, [get] blocks, and a put in
    the opposite direction does not change that.  After the put of [P1] and
    then the put of [P2] in the direction, the receiver's first [get]
    returns [P1] (with the time its sender gave), the second returns [P2],
    and a third blocks again. *)
Theorem fifo_per_direction w c source target b P1 t1 P2 t2 :
  direction_state w c source target b [] →
  QConnect_get c (PyAgent b) w = (Blocks, w) ∧
  (∀ C lt lg A (devs : list Device) (p : Program) q P t,
     source ≠ target →
     put_context w c C target source lt lg A devs p q →
     ∃ s w',
       QConnect_put c target source P t w = (Return s, w') ∧
       QConnect_get c (PyAgent b) w' = (Blocks, w')) ∧
  ∃ s1 w1 s2 w2 d1 w3 d2 w4,
    QConnect_put c source target P1 t1 w = (Return s1, w1) ∧
    QConnect_put c source target P2 t2 w1 = (Return s2, w2) ∧
    QConnect_get c (PyAgent b) w2 = (Return (P1, d1, t1), w3) ∧
    QConnect_get c (PyAgent b) w3 = (Return (P2, d2, t2), w4) ∧
    QConnect_get c (PyAgent b) w4 = (Blocks, w4).
Proof.
  intros H0. split; [by eapply direction_state_blocks|]. split.
  - intros * Hne Hctx.
    destruct H0 as (C0 & q0 & B & Hc & Hq & Hpending & _ & _ & _ & _ & _
                    & Hb & Hname & _).
    symmetry in Hpending. apply map_eq_nil in Hpending. subst q0.
    pose proof Hctx as (Hc' & _). rewrite Hc in Hc'. injection Hc' as ->.
    eexists _, _. split; [by apply put_context_run|].
    eapply QConnect_get_blocks.
    + cbn. apply lookup_insert_eq.
    + exact Hb.
    + cbn. rewrite Hname. by rewrite lookup_insert_ne.
  - destruct (direction_state_put _ _ _ _ _ _ P1 t1 H0) as (s1 & w1 & E1 & H1).
    destruct (direction_state_put _ _ _ _ _ _ P2 t2 H1) as (s2 & w2 & E2 & H2).
    cbn in H2.
    destruct (direction_state_get _ _ _ _ _ _ _ _ H2) as (d1 & w3 & E3 & H3).
    destruct (direction_state_get _ _ _ _ _ _ _ _ H3) as (d2 & w4 & E4 & H4).
    exists s1, w1, s2, w2, d1, w3, d2, w4.
    repeat split; try done. by eapply direction_state_blocks.
Qed.

(** ** The agent's receive calls *)

(** C2 (the code departs from it).  With a connection registered under the
    source, [qrecv] raises [AttributeError], whatever is pending for the
    agent: [get] is handed the agent's name and asks that string for its
    [name].  Nothing is taken off a queue, and the agent's qubits and
    clock stay as they were. *)
Theorem qrecv_raises w self a source c C :
  agents w !! self = Some a →
  Agent.qconnections a !! source = Some c →
  qconnects w !! c = Some C →
  qrecv self source w =
  (Raise (AttributeError "'str' object has no attribute 'name'"), w).
Proof.
  intros Ha Hc HC. unfold qrecv.
  rewrite (bind_return _ _ _ _ _ (deref_Some agents _ _ _ Ha)).
  rewrite (bind_return _ _ _ _ _ (getitem_Some _ _ _ _ Hc)).
  rewrite bind_run. unfold QConnect_get.
  by rewrite (bind_return _ _ _ _ _ (deref_Some qconnects _ _ _ HC)).
Qed.

Lemma csend_run w self a target c C q cbits :
  agents w !! self = Some a →
  Agent.cconnections a !! target = Some c →
  cconnects w !! c = Some C →
  CConnect.queues C !! target = Some q →
  csend self target cbits w =
  (Return tt,
   mkWorld (agents w) (lists w) (programs w) (qconnects w)
     (<[c := CConnect.mk (CConnect.agents C) (CConnect.length C)
          (<[target := q ++ [(cbits,
                (pulse_length_default * num 8 * num (sys_getsizeof cbits))%Qc)]]>
             (CConnect.queues C))]> (cconnects w))).
Proof.
  intros Ha Hc HC Hq. unfold csend.
  rewrite (bind_return _ _ _ _ _ (deref_Some agents _ _ _ Ha)).
  rewrite (bind_return _ _ _ _ _ (getitem_Some _ _ _ _ Hc)).
  unfold CConnect_put.
  rewrite bind_run.
  rewrite (bind_return _ _ _ _ _ (deref_Some cconnects _ _ _ HC)).
  by rewrite (bind_return _ _ _ _ _ (getitem_Some _ _ _ _ Hq)).
Qed.

Lemma crecv_run w self a source c C cbits delay rest :
  agents w !! self = Some a →
  Agent.cconnections a !! source = Some c →
  cconnects w !! c = Some C →
  CConnect.queues C !! Agent.name a = Some ((cbits, delay) :: rest) →
  crecv self source w =
  (Return (cbits, (CConnect.length C / signal_speed * len cbits + delay)%Qc),
   mkWorld (agents w) (lists w) (programs w) (qconnects w)
     (<[c := CConnect.mk (CConnect.agents C) (CConnect.length C)
          (<[Agent.name a := rest]> (CConnect.queues C))]> (cconnects w))).
Proof.
  intros Ha Hc HC Hq. unfold crecv.
  rewrite (bind_return _ _ _ _ _ (deref_Some agents _ _ _ Ha)).
  rewrite (bind_return _ _ _ _ _ (getitem_Some _ _ _ _ Hc)).
  unfold CConnect_get.
  rewrite bind_run.
  rewrite (bind_return _ _ _ _ _ (deref_Some cconnects _ _ _ HC)).
  by rewrite (bind_return _ _ _ _ _ (getitem_Some _ _ _ _ Hq)).
Qed.

(** C6 (the code departs from it).  Over a classical connection of length
    [L] with nothing pending for the receiver, [csend] of [cbits] stores
    the delay [pulse_length_default * 8 * getsizeof(cbits)], and the
    receiver's [crecv] then returns the pair of the cbits and of the total
    delay, [L / signal_speed * len(cbits)] plus the stored delay; it does
    not return the cbits alone, and every agent, the receiver's clock
    included, is left as it was. *)
Theorem crecv_returns_pair_keeps_clock w (sender receiver : ref)
    (S R : Agent.t) c C cbits :
  agents w !! sender = Some S →
  agents w !! receiver = Some R →
  Agent.cconnections S !! Agent.name R = Some c →
  Agent.cconnections R !! Agent.name S = Some c →
  cconnects w !! c = Some C →
  CConnect.queues C !! Agent.name R = Some [] →
  ∃ w1 w2,
    csend sender (Agent.name R) cbits w = (Return tt, w1) ∧
    crecv receiver (Agent.name S) w1 =
      (Return (cbits,
               (CConnect.length C / signal_speed * len cbits +
                pulse_length_default * num 8 * num (sys_getsizeof cbits))%Qc),
       w2) ∧
    agents w2 = agents w ∧
    agents w2 !! receiver = Some R.
Proof.
  intros HS HR Hc1 Hc2 HC Hq.
  eexists _, _. split; [by eapply csend_run|]. split.
  - rewrite (crecv_run _ receiver R (Agent.name S) c
               (CConnect.mk (CConnect.agents C) (CConnect.length C)
                  (<[Agent.name R := [] ++ [(cbits,
                       (pulse_length_default * num 8 * num (sys_getsizeof cbits))%Qc)]]>
                     (CConnect.queues C))) cbits
               (pulse_length_default * num 8 * num (sys_getsizeof cbits))%Qc []).
    + reflexivity.
    + exact HR.
    + exact Hc2.
    + cbn. apply lookup_insert_eq.
    + cbn. apply lookup_insert_eq.
  - cbn. done.
Qed.

(** ** Construction of an agent and attachment of devices *)

Lemma Agent_init_run w class_name (program : ref) qubits (name : option string) :
  let self := fresh (dom (agents w)) in
  let target := fresh (dom (lists w)) in
  let source := fresh (dom (<[target := []]> (lists w))) in
  Agent_init class_name program qubits name w =
  (Return self,
   mkWorld
     (<[self := Agent.mk (default class_name name) 0%Qc ∅ ∅ qubits program
                  target source]> (agents w))
     (<[source := []]> (<[target := []]> (lists w)))
     (programs w) (qconnects w) (cconnects w)).
Proof. destruct name; reflexivity. Qed.

(** X1.  [Agent(program, qubits, name)] makes an agent that was not in the
    store, named [name] or, without one, after its class, with clock 0, no
    connection registered, the qubits and program it was given, and two
    new, empty and distinct device lists.  Every agent and every list
    that existed is left as it was, and so are programs and connections. *)
Theorem Agent_init_fresh w class_name (program : ref) qubits (name : option string) :
  ∃ self w' A,
    Agent_init class_name program qubits name w = (Return self, w') ∧
    agents w !! self = None ∧
    agents w' = <[self := A]> (agents w) ∧
    Agent.name A = default class_name name ∧
    Agent.time A = 0%Qc ∧
    Agent.qconnections A = ∅ ∧ Agent.cconnections A = ∅ ∧
    Agent.qubits A = qubits ∧ Agent.program A = program ∧
    lists w !! Agent.target_devices A = None ∧
    lists w !! Agent.source_devices A = None ∧
    Agent.target_devices A ≠ Agent.source_devices A ∧
    lists w' !! Agent.target_devices A = Some [] ∧
    lists w' !! Agent.source_devices A = Some [] ∧
    (∀ r l, lists w !! r = Some l → lists w' !! r = Some l) ∧
    (∀ r B, agents w !! r = Some B → agents w' !! r = Some B) ∧
    programs w' = programs w ∧ qconnects w' = qconnects w ∧
    cconnects w' = cconnects w.
Proof.
  eexists _, _, _. split; [apply Agent_init_run|].
  cbn [agents lists programs qconnects cconnects Agent.name Agent.time
       Agent.qconnections Agent.cconnections Agent.qubits Agent.program
       Agent.target_devices Agent.source_devices].
  set (target := fresh (dom (lists w))).
  set (source := fresh (dom (<[target := []]> (lists w)))).
  assert (Hself : agents w !! fresh (dom (agents w)) = None).
  { apply not_elem_of_dom, is_fresh. }
  assert (Htarget : lists w !! target = None).
  { apply not_elem_of_dom, is_fresh. }
  assert (Hsource : <[target := []]> (lists w) !! source = None).
  { apply not_elem_of_dom, is_fresh. }
  assert (Hne : target ≠ source).
  { intros E. rewrite <- E, lookup_insert_eq in Hsource. done. }
  assert (Hsource' : lists w !! source = None).
  { by rewrite lookup_insert_ne in Hsource. }
  repeat split; try done.
  - by rewrite lookup_insert_ne, lookup_insert_eq.
  - apply lookup_insert_eq.
  - intros r l Hr. rewrite !lookup_insert_ne; [done|congruence|congruence].
  - intros r B Hr. rewrite lookup_insert_ne; [done|congruence].
Qed.

Lemma add_device_run w self a device_type device ls lt :
  agents w !! self = Some a →
  lists w !! Agent.source_devices a = Some ls →
  lists w !! Agent.target_devices a = Some lt →
  add_device self device_type device w =
  if decide (device_type = "source") then
    (Return tt,
     mkWorld (agents w) (<[Agent.source_devices a := ls ++ [device]]> (lists w))
       (programs w) (qconnects w) (cconnects w))
  else if decide (device_type = "target") then
    (Return tt,
     mkWorld (agents w) (<[Agent.target_devices a := lt ++ [device]]> (lists w))
       (programs w) (qconnects w) (cconnects w))
  else (Raise (Exception "Invalid device type (e.g. 'source' or 'target'"), w).
Proof.
  intros Ha Hs Ht. unfold add_device.
  rewrite (bind_return _ _ _ _ _ (deref_Some agents _ _ _ Ha)).
  repeat case_decide; try reflexivity; unfold list_append.
  - by rewrite (bind_return _ _ _ _ _ (deref_Some lists _ _ _ Hs)).
  - by rewrite (bind_return _ _ _ _ _ (deref_Some lists _ _ _ Ht)).
Qed.

Lemma attached_cons role device_type (device : Device) calls :
  attached role ((device_type, device) :: calls) =
  if decide (device_type = role) then device :: attached role calls
  else attached role calls.
Proof.
  unfold attached. rewrite filter_cons. cbn. by case_decide.
Qed.

(** X2.  However many [add_device] calls are made on an agent whose two
    device lists are distinct objects, with whatever roles, the list of
    source devices ends as it was followed by the devices attached as
    ['source'], in call order, the list of target devices likewise for
    ['target'], calls with another role leave no trace, and nothing else
    in the store changes. *)
Theorem add_devices_in_call_order w self a calls ls lt :
  agents w !! self = Some a →
  lists w !! Agent.source_devices a = Some ls →
  lists w !! Agent.target_devices a = Some lt →
  Agent.source_devices a ≠ Agent.target_devices a →
  ∃ w',
    add_devices self calls w = (Return tt, w') ∧
    lists w' !! Agent.source_devices a = Some (ls ++ attached "source" calls) ∧
    lists w' !! Agent.target_devices a = Some (lt ++ attached "target" calls) ∧
    (∀ r, r ≠ Agent.source_devices a → r ≠ Agent.target_devices a →
          lists w' !! r = lists w !! r) ∧
    agents w' = agents w ∧ programs w' = programs w ∧
    qconnects w' = qconnects w ∧ cconnects w' = cconnects w.
Proof.
  intros Ha Hs Ht Hne. revert w ls lt Ha Hs Ht.
  induction calls as [|[device_type device] calls IH]; intros w ls lt Ha Hs Ht.
  - exists w. cbn. unfold attached. cbn. by rewrite !app_nil_r.
  - cbn [add_devices].
    rewrite (add_device_run _ _ _ _ _ _ _ Ha Hs Ht), !attached_cons.
    destruct (decide (device_type = "source")) as [->|N1].
    + cbn [snd]. rewrite decide_False by done.
      match goal with |- context [add_devices _ _ ?w1] =>
        destruct (IH w1 (ls ++ [device]) lt)
          as (w' & E & Hs' & Ht' & Hr & HA & HP & HQ & HC);
          [exact Ha| apply lookup_insert_eq | by cbn; rewrite lookup_insert_ne |]
      end.
      exists w'. split; [exact E|]. rewrite <- app_assoc in Hs'.
      split; [exact Hs'|]. split; [exact Ht'|]. split; [|done].
      intros r N3 N4. rewrite Hr by done. cbn. by rewrite lookup_insert_ne.
    + destruct (decide (device_type = "target")) as [->|N2].
      * cbn [snd].
        match goal with |- context [add_devices _ _ ?w1] =>
          destruct (IH w1 ls (lt ++ [device]))
            as (w' & E & Hs' & Ht' & Hr & HA & HP & HQ & HC);
            [exact Ha| by cbn; rewrite lookup_insert_ne | apply lookup_insert_eq |]
        end.
        exists w'. split; [exact E|]. rewrite <- app_assoc in Ht'.
        split; [exact Hs'|]. split; [exact Ht'|]. split; [|done].
        intros r N3 N4. rewrite Hr by done. cbn. by rewrite lookup_insert_ne.
      * cbn [snd]. by apply IH.
Qed.

(** ** Equality of agents *)

(** X3.  [==] on two agents compares their names and nothing else, [!=] is
    its negation, agents that compare equal have the same hash, and
    neither changes the store; comparing an agent with a string raises
    [AttributeError]. *)
Theorem Agent_eq_by_name w (one two : ref) (A B : Agent.t) (hash : string → Z) :
  agents w !! one = Some A →
  agents w !! two = Some B →
  Agent_eq one (PyAgent two) w =
    (Return (bool_decide (Agent.name A = Agent.name B)), w) ∧
  Agent_ne one (PyAgent two) w =
    (Return (negb (bool_decide (Agent.name A = Agent.name B))), w) ∧
  Agent_eq two (PyAgent one) w =
    (Return (bool_decide (Agent.name A = Agent.name B)), w) ∧
  (Agent.name A = Agent.name B →
   Agent_hash hash one w = Agent_hash hash two w) ∧
  (∀ s, Agent_eq one (PyStr s) w =
        (Raise (AttributeError "'str' object has no attribute 'name'"), w)).
Proof.
  intros HA HB.
  assert (E1 : Agent_eq one (PyAgent two) w =
               (Return (bool_decide (Agent.name A = Agent.name B)), w)).
  { unfold Agent_eq.
    rewrite (bind_return _ _ _ _ _ (deref_Some agents _ _ _ HA)).
    by rewrite (bind_return _ _ _ _ _ (getattr_name_agent _ _ _ HB)). }
  split; [exact E1|]. split; [|split; [|split]].
  - unfold Agent_ne. by rewrite (bind_return _ _ _ _ _ E1).
  - unfold Agent_eq.
    rewrite (bind_return _ _ _ _ _ (deref_Some agents _ _ _ HB)).
    rewrite (bind_return _ _ _ _ _ (getattr_name_agent _ _ _ HA)).
    unfold mret, M_ret, ret. do 2 f_equal. apply bool_decide_ext. naive_solver.
  - intros E. unfold Agent_hash.
    rewrite (bind_return _ _ _ _ _ (deref_Some agents _ _ _ HA)).
    rewrite (bind_return _ _ _ _ _ (deref_Some agents _ _ _ HB)).
    by rewrite E.
  - intros s. unfold Agent_eq.
    by rewrite (bind_return _ _ _ _ _ (deref_Some agents _ _ _ HA)).
Qed.


(** ** What the agent's quantum calls never do, and unknown peers *)

(** X4.  Whatever the store and the arguments, [qsend] and [qrecv] never
    return.  [qrecv] leaves the whole store as it was; [qsend] leaves every
    queue, list, program and every other agent as they were: at most the
    sender's own entry changes. *)
Theorem qsend_qrecv_never_return w self peer qubits :
  (∃ r w',
     qsend self peer qubits w = (r, w') ∧
     (∀ v, r ≠ Return v) ∧
     qconnects w' = qconnects w ∧ cconnects w' = cconnects w ∧
     lists w' = lists w ∧ programs w' = programs w ∧
     (∀ other, other ≠ self → agents w' !! other = agents w !! other)) ∧
  (∃ r, qrecv self peer w = (r, w) ∧ ∀ v, r ≠ Return v).
Proof.
  split.
  - unfold qsend, deref. rewrite bind_run.
    destruct (agents w !! self) as [a|] eqn:Ha; [|by eexists _, _].
    case_decide; [|by eexists _, _].
    rewrite bind_run. cbn [set_agent].
    erewrite bind_return; last first.
    { apply deref_Some. cbn. apply lookup_insert_eq. }
    rewrite bind_run. cbn [with_qubits Agent.qconnections Agent.name].
    unfold getitem.
    destruct (Agent.qconnections a !! peer) as [c|] eqn:Hc.
    + eexists _, _. split; [reflexivity|]. repeat split; try done.
      intros other Hne. cbn. by rewrite lookup_insert_ne.
    + eexists _, _. split; [reflexivity|]. repeat split; try done.
      intros other Hne. cbn. by rewrite lookup_insert_ne.
  - unfold qrecv, deref. rewrite bind_run.
    destruct (agents w !! self) as [a|] eqn:Ha; [|by eexists].
    rewrite bind_run. unfold getitem.
    destruct (Agent.qconnections a !! peer) as [c|] eqn:Hc; [|by eexists].
    cbn [ret]. rewrite bind_run. unfold QConnect_get, deref. rewrite bind_run.
    destruct (qconnects w !! c) as [C|] eqn:HC; by eexists.
Qed.

(** X5.  With no connection registered under the peer's name, [qrecv],
    [csend] and [crecv] raise [KeyError] and leave the store as it was.
    [qsend] of an owned payload raises [KeyError] too, but only after it
    has taken the payload out of the sender's qubits: the sender ends
    without the payload, which went nowhere. *)
Theorem unknown_peer_raises w self a peer :
  agents w !! self = Some a →
  (Agent.qconnections a !! peer = None →
     qrecv self peer w = (Raise (KeyError peer), w) ∧
     ∀ qubits, (∀ x, x ∈ qubits → x ∈ Agent.qubits a) →
       ∃ a',
         qsend self peer qubits w =
           (Raise (KeyError peer),
            mkWorld (<[self := a']> (agents w)) (lists w) (programs w)
              (qconnects w) (cconnects w)) ∧
         (∀ x, x ∈ Agent.qubits a' ↔ x ∈ Agent.qubits a ∧ x ∉ qubits)) ∧
  (Agent.cconnections a !! peer = None →
     crecv self peer w = (Raise (KeyError peer), w) ∧
     ∀ cbits, csend self peer cbits w = (Raise (KeyError peer), w)).
Proof.
  intros Ha. split.
  - intros Hc. split.
    + unfold qrecv.
      rewrite (bind_return _ _ _ _ _ (deref_Some agents _ _ _ Ha)).
      by rewrite bind_run, (getitem_None _ _ _ Hc).
    + intros qubits Hsub. eexists. split.
      * unfold qsend.
        rewrite (bind_return _ _ _ _ _ (deref_Some agents _ _ _ Ha)).
        rewrite decide_True by (by apply issubset_lists).
        rewrite bind_run. cbn [set_agent].
        erewrite bind_return; last first.
        { apply deref_Some. cbn. apply lookup_insert_eq. }
        rewrite bind_run. cbn [with_qubits Agent.qconnections].
        by rewrite (getitem_None _ _ _ Hc).
      * intros x. cbn [with_qubits Agent.qubits].
        by rewrite elem_of_list_of, elem_of_difference, !elem_of_set_of.
  - intros Hc. split.
    + unfold crecv.
      rewrite (bind_return _ _ _ _ _ (deref_Some agents _ _ _ Ha)).
      by rewrite bind_run, (getitem_None _ _ _ Hc).
    + intros cbits. unfold csend.
      rewrite (bind_return _ _ _ _ _ (deref_Some agents _ _ _ Ha)).
      by rewrite bind_run, (getitem_None _ _ _ Hc).
Qed.


(** ** Well-formed connections: set up by the constructor, kept by [put]
    and [get] *)

Lemma dom_lookup_is_Some {V1 V2} (m1 : gmap string V1) (m2 : gmap string V2) k :
  dom m1 = dom m2 → is_Some (m1 !! k) → is_Some (m2 !! k).
Proof. intros E H1. apply elem_of_dom. rewrite <- E. by apply elem_of_dom. Qed.

Lemma dom_lookup_None {V1 V2} (m1 : gmap string V1) (m2 : gmap string V2) k :
  dom m1 = dom m2 → m1 !! k = None → m2 !! k = None.
Proof. intros E H1. apply not_elem_of_dom. rewrite <- E. by apply not_elem_of_dom. Qed.

Lemma agent_ok_kept w w' (r : ref) :
  agents_kept w w' → objects_kept w w' → agent_ok w r → agent_ok w' r.
Proof.
  intros Hag [Hl Hp] (A & HA & Hs & Ht & Hpr).
  destruct (Hag _ _ HA) as (A' & HA' & _ & _ & Epr & Es & Et).
  exists A'. rewrite Epr, Es, Et. auto.
Qed.

Lemma entry_ok_kept w w' e : objects_kept w w' → entry_ok w e → entry_ok w' e.
Proof. intros [Hl _] [H1 H2]. split; auto. Qed.

Lemma QConnect_wf_kept w w' c :
  agents_kept w w' → objects_kept w w' →
  qconnects w' !! c = qconnects w !! c →
  QConnect_wf w c → QConnect_wf w' c.
Proof.
  intros Hag Hobj Hc (C & HC & D1 & D2 & D3 & D4 & Hs & Ht & Htr & Ha & Hq).
  exists C. rewrite Hc. destruct Hobj as [Hl Hp].
  repeat split; try done; eauto.
  - intros k a Hk. eapply agent_ok_kept; [done|by split|eauto].
  - intros k q Hk. specialize (Hq _ _ Hk).
    rewrite Forall_forall in Hq. apply Forall_forall. intros e He.
    apply (entry_ok_kept w); [by split|auto].
Qed.

Lemma names_of_lookup w c C :
  qconnects w !! c = Some C → names_of w c = dom (QConnect.queues C).
Proof. intros E. unfold names_of. by rewrite E. Qed.

Lemma queue_of_lookup w c C k :
  qconnects w !! c = Some C → queue_of w c k = QConnect.queues C !! k.
Proof. intros E. unfold queue_of. by rewrite E. Qed.

Lemma QConnect_init_agents w (one two D : ref) (A1 A2 : Agent.t) (l : list Device) :
  agents w !! one = Some A1 →
  agents w !! two = Some A2 →
  lists w !! D = Some l →
  ∃ w' A1' A2',
    QConnect_init one two D w = (Return (fresh (dom (qconnects w))), w') ∧
    agents w' !! one = Some A1' ∧ same_identity A1 A1' ∧
    agents w' !! two = Some A2' ∧ same_identity A2 A2' ∧
    Agent.qconnections A1' !! Agent.name A2 = Some (fresh (dom (qconnects w))) ∧
    Agent.qconnections A2' !! Agent.name A1 = Some (fresh (dom (qconnects w))) ∧
    (∀ r, r ≠ one → r ≠ two → agents w' !! r = agents w !! r) ∧
    lists w' = <[fresh (dom (lists w)) := reverse l]> (lists w) ∧
    programs w' = programs w ∧ cconnects w' = cconnects w ∧
    qconnects w' =
      <[fresh (dom (qconnects w)) :=
          QConnect.mk
            (<[Agent.name A2 := Agent.source_devices A2]>
               {[Agent.name A1 := Agent.source_devices A1]})
            (<[Agent.name A2 := Agent.target_devices A2]>
               {[Agent.name A1 := Agent.target_devices A1]})
            (<[Agent.name A2 := fresh (dom (lists w))]> {[Agent.name A1 := D]})
            (<[Agent.name A2 := two]> {[Agent.name A1 := one]})
            (<[Agent.name A2 := []]> {[Agent.name A1 := []]})]> (qconnects w).
Proof.
  intros H1 H2 HD. unfold QConnect_init.
  rewrite bind_run. cbn beta iota.
  rewrite (bind_return _ _ _ _ _ (deref_Some agents _ _ _ H1)).
  rewrite (bind_return _ _ _ _ _ (deref_Some agents _ _ _ H2)).
  rewrite (bind_return _ _ _ _ _ (deref_Some lists _ _ _ HD)).
  rewrite bind_run. cbn [new_list].
  erewrite bind_return; last first.
  { apply deref_Some. cbn. exact H1. }
  rewrite bind_run. cbn [set_agent agents lists programs qconnects cconnects].
  destruct (decide (one = two)) as [->|Hne].
  - erewrite bind_return; last first.
    { apply deref_Some. cbn. apply lookup_insert_eq. }
    rewrite H1 in H2. injection H2 as ->.
    eexists _, _, _. split; [reflexivity|]. cbn.
    rewrite !lookup_insert_eq.
    split; [done|]. split; [done|]. split; [done|]. split; [done|].
    split.
    { destruct (decide (Agent.name A2 = Agent.name A2)); [|done].
      apply lookup_insert_eq. }
    split; [apply lookup_insert_eq|].
    split; [|done]. intros r N1 _. by rewrite !lookup_insert_ne.
  - erewrite bind_return; last first.
    { apply deref_Some. cbn. rewrite lookup_insert_ne by done. exact H2. }
    eexists _, _, _. split; [reflexivity|]. cbn.
    rewrite lookup_insert_eq, lookup_insert_ne, lookup_insert_eq by done.
    split; [done|]. split; [done|]. split; [done|]. split; [done|].
    split; [apply lookup_insert_eq|]. split; [apply lookup_insert_eq|].
    split; [|done]. intros r N1 N2. by rewrite !lookup_insert_ne.
Qed.

(** X6.  For two agents whose device lists and programs are in the store
    and a transit list that is in the store, [QConnect(agent_one,
    agent_two, transit_devices)] returns a connection that was not in the
    store and is well formed.  It knows exactly the two agents' names, with
    an empty queue for each.  Each agent now finds the new connection under
    the other's name, whatever was registered there before.  Every agent
    keeps its identity, no list and no program is lost, and the connections
    that were well formed still are. *)
Theorem QConnect_init_well_formed w (one two D : ref) (A1 A2 : Agent.t) :
  agents w !! one = Some A1 →
  agents w !! two = Some A2 →
  agent_ok w one →
  agent_ok w two →
  is_Some (lists w !! D) →
  ∃ c w',
    QConnect_init one two D w = (Return c, w') ∧
    qconnects w !! c = None ∧
    QConnect_wf w' c ∧
    names_of w' c = {[Agent.name A1; Agent.name A2]} ∧
    queue_of w' c (Agent.name A1) = Some [] ∧
    queue_of w' c (Agent.name A2) = Some [] ∧
    (∃ A1', agents w' !! one = Some A1' ∧
            Agent.qconnections A1' !! Agent.name A2 = Some c) ∧
    (∃ A2', agents w' !! two = Some A2' ∧
            Agent.qconnections A2' !! Agent.name A1 = Some c) ∧
    agents_kept w w' ∧ objects_kept w w' ∧
    (∀ c', QConnect_wf w c' → QConnect_wf w' c').
Proof.
  intros H1 H2 Hok1 Hok2 [l HD].
  destruct (QConnect_init_agents _ _ _ _ _ _ _ H1 H2 HD)
    as (w' & A1' & A2' & Hrun & HA1 & Hid1 & HA2 & Hid2 & Hr1 & Hr2
        & Hother & Hlists & Hprogs & Hcc & Hqc).
  set (c := fresh (dom (qconnects w))) in *.
  assert (Hfresh : qconnects w !! c = None).
  { apply not_elem_of_dom, is_fresh. }
  assert (Hkept : agents_kept w w').
  { intros r X HX. destruct (decide (r = one)) as [->|N1].
    - exists A1'. rewrite H1 in HX. injection HX as <-. done.
    - destruct (decide (r = two)) as [->|N2].
      + exists A2'. rewrite H2 in HX. injection HX as <-. done.
      + exists X. rewrite Hother by done. split; [done|]. by repeat split. }
  assert (Hobj : objects_kept w w').
  { split; [|by rewrite Hprogs]. intros r Hr. rewrite Hlists.
    apply lookup_insert_is_Some'. by right. }
  assert (Hrev : is_Some (lists w' !! fresh (dom (lists w)))).
  { rewrite Hlists. apply lookup_insert_is_Some'. by left. }
  assert (HD' : is_Some (lists w' !! D)) by (apply Hobj; eauto).
  assert (Hok1' : agent_ok w' one) by (by apply (agent_ok_kept w)).
  assert (Hok2' : agent_ok w' two) by (by apply (agent_ok_kept w)).
  destruct Hok1 as (X1 & HX1 & Hs1 & Ht1 & _).
  rewrite H1 in HX1. injection HX1 as <-.
  destruct Hok2 as (X2 & HX2 & Hs2 & Ht2 & _).
  rewrite H2 in HX2. injection HX2 as <-.
  exists c, w'. split; [exact Hrun|]. split; [exact Hfresh|].
  assert (Hpair : ∀ {V} (v1 v2 v : V) k (P : V → Prop),
            P v1 → P v2 →
            (<[Agent.name A2 := v2]> {[Agent.name A1 := v1]} : gmap string V) !! k
              = Some v → P v).
  { intros V v1 v2 v k P P1 P2 Hk.
    destruct (decide (Agent.name A2 = k)) as [<-|N2].
    - rewrite lookup_insert_eq in Hk. by injection Hk as <-.
    - rewrite lookup_insert_ne in Hk by done.
      apply lookup_singleton_Some in Hk as [_ <-]. done. }
  assert (Hdom : ∀ {V} (v1 v2 : V),
            dom (<[Agent.name A2 := v2]> {[Agent.name A1 := v1]} : gmap string V)
            = {[Agent.name A1; Agent.name A2]}).
  { intros V v1 v2. rewrite dom_insert_L, dom_singleton_L.
    apply (comm_L (∪)). }
  split.
  { eexists. rewrite Hqc. split; [apply lookup_insert_eq|].
    cbn [QConnect.queues QConnect.source_devices QConnect.agents
         QConnect.transit_devices QConnect.target_devices].
    rewrite !Hdom. repeat split; try done.
    - intros k x Hk.
      apply (Hpair _ _ _ _ _ (λ r, is_Some (lists w' !! r))
               (proj1 Hobj _ Hs1) (proj1 Hobj _ Hs2) Hk).
    - intros k x Hk.
      apply (Hpair _ _ _ _ _ (λ r, is_Some (lists w' !! r))
               (proj1 Hobj _ Ht1) (proj1 Hobj _ Ht2) Hk).
    - intros k x Hk.
      apply (Hpair _ _ _ _ _ (λ r, is_Some (lists w' !! r)) HD' Hrev Hk).
    - intros k x Hk. apply (Hpair _ _ _ _ _ (agent_ok w') Hok1' Hok2' Hk).
    - intros k x Hk.
      apply (Hpair _ _ _ _ _ (λ q, Forall (entry_ok w') q)
               (Forall_nil_2 _) (Forall_nil_2 _) Hk). }
  split.
  { unfold names_of. rewrite Hqc, lookup_insert_eq. cbn. apply Hdom. }
  split.
  { unfold queue_of. rewrite Hqc, lookup_insert_eq. cbn.
    destruct (decide (Agent.name A2 = Agent.name A1)) as [E|N].
    - rewrite E. apply lookup_insert_eq.
    - rewrite lookup_insert_ne by done. apply lookup_singleton_eq. }
  split.
  { unfold queue_of. rewrite Hqc, lookup_insert_eq. cbn. apply lookup_insert_eq. }
  split; [eauto|]. split; [eauto|]. split; [done|]. split; [done|].
  intros c' Hwf. apply (QConnect_wf_kept w); try done.
  rewrite Hqc. apply lookup_insert_ne. intros <-.
  destruct Hwf as (C' & HC' & _). congruence.
Qed.


(** A connection whose dicts are the displays of two keys is well formed
    as soon as what it names is in the store. *)
Lemma lookup_pair_elim {V} (k1 k2 k : string) (v1 v2 v : V) (P : V → Prop) :
  P v1 → P v2 →
  (<[k2 := v2]> {[k1 := v1]} : gmap string V) !! k = Some v → P v.
Proof.
  intros P1 P2 Hk. destruct (decide (k2 = k)) as [<-|N2].
  - rewrite lookup_insert_eq in Hk. by injection Hk as <-.
  - rewrite lookup_insert_ne in Hk by done.
    apply lookup_singleton_Some in Hk as [_ <-]. done.
Qed.

Lemma pair_connection_wf w (c : ref) (n1 n2 : string)
    (s1 s2 t1 t2 r1 r2 a1 a2 : ref) (q1 q2 : list QConnect.entry) :
  qconnects w !! c =
    Some (QConnect.mk (<[n2 := s2]> {[n1 := s1]}) (<[n2 := t2]> {[n1 := t1]})
            (<[n2 := r2]> {[n1 := r1]}) (<[n2 := a2]> {[n1 := a1]})
            (<[n2 := q2]> {[n1 := q1]})) →
  is_Some (lists w !! s1) → is_Some (lists w !! s2) →
  is_Some (lists w !! t1) → is_Some (lists w !! t2) →
  is_Some (lists w !! r1) → is_Some (lists w !! r2) →
  agent_ok w a1 → agent_ok w a2 →
  Forall (entry_ok w) q1 → Forall (entry_ok w) q2 →
  QConnect_wf w c.
Proof.
  intros HC Hs1 Hs2 Ht1 Ht2 Hr1 Hr2 Ha1 Ha2 Hq1 Hq2.
  eexists. split; [exact HC|].
  cbn [QConnect.queues QConnect.source_devices QConnect.agents
       QConnect.transit_devices QConnect.target_devices].
  rewrite !dom_insert_L, !dom_singleton_L.
  repeat split; try done; intros k x Hk.
  - by apply (lookup_pair_elim _ _ _ _ _ _ (λ r, is_Some (lists w !! r)) Hs1 Hs2 Hk).
  - by apply (lookup_pair_elim _ _ _ _ _ _ (λ r, is_Some (lists w !! r)) Ht1 Ht2 Hk).
  - by apply (lookup_pair_elim _ _ _ _ _ _ (λ r, is_Some (lists w !! r)) Hr1 Hr2 Hk).
  - by apply (lookup_pair_elim _ _ _ _ _ _ (agent_ok w) Ha1 Ha2 Hk).
  - by apply (lookup_pair_elim _ _ _ _ _ _ (Forall (entry_ok w)) Hq1 Hq2 Hk).
Qed.


(** X7.  On a well-formed connection [put] does one of three things.  With
    a [source] the connection does not know it raises [KeyError(source)];
    with a known [source] and an unknown [target] it raises
    [KeyError(target)]; in both cases no device has run and the store is
    as it was.  With two known names it returns the delay it stored, never
    blocks, and has added one entry, carrying the payload, the delay and
    the sender's time, at the tail of the target's queue; the connection
    is still well formed, and no agent (the sender keeps the payload), no
    list, no other queue and no other connection has changed. *)
Theorem QConnect_put_total w c source target qubits t :
  QConnect_wf w c →
  (source ∉ names_of w c →
     QConnect_put c source target qubits t w = (Raise (KeyError source), w)) ∧
  (source ∈ names_of w c → target ∉ names_of w c →
     QConnect_put c source target qubits t w = (Raise (KeyError target), w)) ∧
  (source ∈ names_of w c → target ∈ names_of w c →
     ∃ d w' q e,
       QConnect_put c source target qubits t w = (Return d, w') ∧
       QConnect_wf w' c ∧
       queue_of w c target = Some q ∧
       queue_of w' c target = Some (q ++ [e]) ∧
       QConnect.e_qubits e = qubits ∧
       QConnect.e_source_delay e = d ∧
       QConnect.e_source_time e = t ∧
       (∀ k, k ≠ target → queue_of w' c k = queue_of w c k) ∧
       names_of w' c = names_of w c ∧
       agents w' = agents w ∧ lists w' = lists w ∧
       cconnects w' = cconnects w ∧
       (∀ c', c' ≠ c → qconnects w' !! c' = qconnects w !! c')).
Proof.
  intros (C & HC & D1 & D2 & D3 & D4 & Hs & Ht & Htr & Ha & Hq).
  rewrite (names_of_lookup _ _ _ HC).
  split; [|split].
  - intros Hsrc%not_elem_of_dom.
    apply (dom_lookup_None _ (QConnect.source_devices C)) in Hsrc; [|done].
    unfold QConnect_put.
    rewrite (bind_return _ _ _ _ _ (deref_Some qconnects _ _ _ HC)).
    by rewrite bind_run, (getitem_None _ _ _ Hsrc).
  - intros Hsrc%elem_of_dom Htgt%not_elem_of_dom.
    destruct (dom_lookup_is_Some _ (QConnect.source_devices C) _ (eq_sym D1) Hsrc)
      as [ls Hls].
    destruct (dom_lookup_is_Some _ (QConnect.transit_devices C) _ (eq_sym D3) Hsrc)
      as [lt Hlt].
    apply (dom_lookup_None _ (QConnect.target_devices C)) in Htgt; [|done].
    unfold QConnect_put.
    rewrite (bind_return _ _ _ _ _ (deref_Some qconnects _ _ _ HC)).
    rewrite (bind_return _ _ _ _ _ (getitem_Some _ _ _ _ Hls)).
    rewrite (bind_return _ _ _ _ _ (getitem_Some _ _ _ _ Hlt)).
    by rewrite bind_run, (getitem_None _ _ _ Htgt).
  - intros Hsrc%elem_of_dom Htgt%elem_of_dom.
    destruct (dom_lookup_is_Some _ (QConnect.source_devices C) _ (eq_sym D1) Hsrc)
      as [ls Hls].
    destruct (dom_lookup_is_Some _ (QConnect.transit_devices C) _ (eq_sym D3) Hsrc)
      as [lt Hlt].
    destruct (dom_lookup_is_Some _ (QConnect.agents C) _ (eq_sym D4) Hsrc)
      as [a Hag].
    destruct (dom_lookup_is_Some _ (QConnect.target_devices C) _ (eq_sym D2) Htgt)
      as [lg Hlg].
    destruct Htgt as [q Hqt].
    destruct (Ha _ _ Hag) as (A & HA & _ & _ & [p Hp]).
    destruct (Hs _ _ Hls) as [devs Hdevs].
    pose proof (QConnect_put_run w c C source target qubits t ls lt lg a A
                  devs p q HC Hls Hlt Hlg Hag HA Hdevs Hp Hqt) as Hrun.
    cbn zeta in Hrun. eexists _, _, q, _. split; [exact Hrun|].
    assert (Hobj : objects_kept w
              (mkWorld (agents w) (lists w)
                 (<[Agent.program A := chain_program devs p qubits]> (programs w))
                 (<[c := with_queues C
                      (<[target := q ++
                           [QConnect.mk_entry qubits lt lg
                              (match devs with
                               | [] => 0 + pulse_length_default
                               | _ :: _ => 0 + total (chain_delays devs p qubits)
                               end * len qubits)%Qc t]]>
                         (QConnect.queues C))]> (qconnects w))
                 (cconnects w))).
    { split; [done|]. intros r Hr. cbn. apply lookup_insert_is_Some'. by right. }
    split.
    { eexists. cbn [qconnects]. split; [apply lookup_insert_eq|].
      cbn [with_queues QConnect.queues QConnect.source_devices QConnect.agents
           QConnect.transit_devices QConnect.target_devices].
      assert (Hdom : dom (<[target := q ++ [QConnect.mk_entry qubits lt lg
                (match devs with
                 | [] => 0 + pulse_length_default
                 | _ :: _ => 0 + total (chain_delays devs p qubits)
                 end * len qubits)%Qc t]]> (QConnect.queues C))
              = dom (QConnect.queues C)).
      { rewrite dom_insert_L. apply subseteq_union_1_L, singleton_subseteq_l.
        apply elem_of_dom. eauto. }
      rewrite Hdom. repeat split; try done.
      - intros k a' Hk. eapply agent_ok_kept; [|exact Hobj|by eapply Ha].
        intros r X HX. exists X. by repeat split.
      - intros k q' Hk. destruct (decide (target = k)) as [<-|Hne].
        + rewrite lookup_insert_eq in Hk. injection Hk as <-.
          apply Forall_app. split; [by eapply Hq|].
          apply Forall_singleton. split; cbn; eauto.
        + rewrite lookup_insert_ne in Hk by done. by eapply Hq. }
    split; [by rewrite (queue_of_lookup _ _ _ _ HC)|].
    split.
    { unfold queue_of. cbn. rewrite lookup_insert_eq. cbn.
      by rewrite lookup_insert_eq. }
    repeat split; try done.
    + intros k Hne. unfold queue_of. cbn. rewrite lookup_insert_eq, HC. cbn.
      by rewrite lookup_insert_ne.
    + unfold names_of. cbn. rewrite lookup_insert_eq. cbn.
      rewrite dom_insert_L. apply subseteq_union_1_L, singleton_subseteq_l.
      apply elem_of_dom. eauto.
    + intros c' Hne. cbn. by rewrite lookup_insert_ne.
Qed.


(** X8.  On a well-formed connection [get], handed an agent of the store,
    does one of four things, and only the last changes the store.  Handed
    a string it raises [AttributeError]; for an agent whose name the
    connection does not know it raises [KeyError]; with nothing pending
    for the agent it blocks; otherwise it returns the payload and the
    sender's time of the oldest entry, which it has taken off the agent's
    queue and merged into the agent's qubits.  Then the connection is still
    well formed, and no other agent, no list, no other queue and no other
    connection has changed: an entry is never lost to a call that fails. *)
Theorem QConnect_get_total w c (b : ref) (B : Agent.t) :
  QConnect_wf w c →
  agents w !! b = Some B →
  (∀ s, QConnect_get c (PyStr s) w =
        (Raise (AttributeError "'str' object has no attribute 'name'"), w)) ∧
  (Agent.name B ∉ names_of w c →
     QConnect_get c (PyAgent b) w = (Raise (KeyError (Agent.name B)), w)) ∧
  (queue_of w c (Agent.name B) = Some [] →
     QConnect_get c (PyAgent b) w = (Blocks, w)) ∧
  (∀ e rest, queue_of w c (Agent.name B) = Some (e :: rest) →
     ∃ d w',
       QConnect_get c (PyAgent b) w =
         (Return (QConnect.e_qubits e, d, QConnect.e_source_time e), w') ∧
       QConnect_wf w' c ∧
       queue_of w' c (Agent.name B) = Some rest ∧
       (∀ k, k ≠ Agent.name B → queue_of w' c k = queue_of w c k) ∧
       names_of w' c = names_of w c ∧
       agents w' =
         <[b := with_qubits B
                  (list_of (set_of (QConnect.e_qubits e ++ Agent.qubits B)))]>
           (agents w) ∧
       lists w' = lists w ∧ cconnects w' = cconnects w ∧
       (∀ c', c' ≠ c → qconnects w' !! c' = qconnects w !! c')).
Proof.
  intros (C & HC & D1 & D2 & D3 & D4 & Hs & Ht & Htr & Ha & Hq) Hb.
  rewrite (names_of_lookup _ _ _ HC), (queue_of_lookup _ _ _ _ HC).
  split; [|split; [|split]].
  - intros s. unfold QConnect_get.
    by rewrite (bind_return _ _ _ _ _ (deref_Some qconnects _ _ _ HC)).
  - intros Hn%not_elem_of_dom. unfold QConnect_get.
    rewrite (bind_return _ _ _ _ _ (deref_Some qconnects _ _ _ HC)).
    rewrite (bind_return _ _ _ _ _ (getattr_name_agent _ _ _ Hb)).
    rewrite bind_run. unfold QConnect_queue_get.
    rewrite (bind_return _ _ _ _ _ (deref_Some qconnects _ _ _ HC)).
    by rewrite bind_run, (getitem_None _ _ _ Hn).
  - intros Hempty. by eapply QConnect_get_blocks.
  - intros e rest Hpending.
    assert (is_Some (QConnect.queues C !! Agent.name B)) as Hin by eauto.
    destruct (dom_lookup_is_Some _ (QConnect.agents C) _ (eq_sym D4) Hin)
      as [b' Hreg].
    destruct (Ha _ _ Hreg) as (B' & HB' & _ & _ & [p Hp]).
    pose proof (Hq _ _ Hpending) as Hentries.
    apply Forall_cons_1 in Hentries as [[[lt Hlt] [lg Hlg]] Hrest].
    pose proof (QConnect_get_run w c C b b' B B' e rest lt lg p
                  HC Hb Hpending Hreg HB' Hlt Hlg Hp) as Hrun.
    cbn zeta in Hrun. eexists _, _. split; [exact Hrun|].
    cbn [agents lists programs qconnects cconnects].
    set (B1 := with_qubits B _).
    assert (Hdom : dom (<[Agent.name B := rest]> (QConnect.queues C))
                   = dom (QConnect.queues C)).
    { rewrite dom_insert_L. apply subseteq_union_1_L, singleton_subseteq_l.
      by apply elem_of_dom. }
    split.
    { eexists. cbn [qconnects]. split; [apply lookup_insert_eq|].
      cbn [with_queues QConnect.queues QConnect.source_devices QConnect.agents
           QConnect.transit_devices QConnect.target_devices].
      rewrite Hdom. repeat split; try done.
      - intros k r Hk. destruct (Ha _ _ Hk) as (X & HX & Hxs & Hxt & Hxp).
        destruct (decide (b = r)) as [<-|Hne].
        + exists B1. cbn [agents]. rewrite lookup_insert_eq. split; [done|].
          rewrite Hb in HX. injection HX as <-. cbn.
          repeat split; try done. apply lookup_insert_is_Some'. by right.
        + exists X. cbn [agents]. rewrite lookup_insert_ne by done.
          repeat split; try done. cbn. apply lookup_insert_is_Some'. by right.
      - intros k q' Hk. destruct (decide (Agent.name B = k)) as [<-|Hne].
        + rewrite lookup_insert_eq in Hk. by injection Hk as <-.
        + rewrite lookup_insert_ne in Hk by done. by eapply Hq. }
    split.
    { unfold queue_of. cbn. rewrite lookup_insert_eq. cbn.
      by rewrite lookup_insert_eq. }
    repeat split; try done.
    + intros k Hne. unfold queue_of. cbn. rewrite lookup_insert_eq, HC. cbn.
      by rewrite lookup_insert_ne.
    + unfold names_of. cbn. by rewrite lookup_insert_eq.
    + intros c' Hne. cbn. by rewrite lookup_insert_ne.
Qed.


(** X9.  One direction of a connection is a first-in first-out queue: for
    every sequence of puts from [source] to [target] and gets by the
    receiver, in any order, each call is seen to do what the same call
    does on a queue of the pending payloads.  Every put is accepted, the
    i-th get that returns hands out the payload and sender's time of the
    i-th entry, and a get blocks exactly when every entry has been handed
    out. *)
Theorem direction_is_fifo_queue w c source target b pending calls :
  direction_state w c source target b pending →
  run_direction c source target b calls w = fifo_queue calls pending.
Proof.
  revert w pending. induction calls as [|[qubits t|] calls IH]; intros w pending Hst.
  - reflexivity.
  - cbn [run_direction fifo_queue].
    destruct (direction_state_put _ _ _ _ _ _ qubits t Hst) as (d & w' & E & Hst').
    rewrite E. cbn. f_equal. by apply IH.
  - cbn [run_direction fifo_queue]. destruct pending as [|[qubits t] pending].
    + rewrite (direction_state_blocks _ _ _ _ _ Hst). cbn. f_equal. by apply IH.
    + destruct (direction_state_get _ _ _ _ _ _ _ _ Hst) as (d & w' & E & Hst').
      rewrite E. cbn. f_equal. by apply IH.
Qed.


(** ** Devices attached after the connection was built *)

Lemma add_device_source_run w (r : ref) (A : Agent.t) (d : Device) ls :
  agents w !! r = Some A →
  lists w !! Agent.source_devices A = Some ls →
  add_device r "source" d w =
  (Return tt,
   mkWorld (agents w) (<[Agent.source_devices A := ls ++ [d]]> (lists w))
     (programs w) (qconnects w) (cconnects w)).
Proof.
  intros HA Hs. unfold add_device.
  rewrite (bind_return _ _ _ _ _ (deref_Some agents _ _ _ HA)).
  simpl. unfold list_append.
  by rewrite (bind_return _ _ _ _ _ (deref_Some lists _ _ _ Hs)).
Qed.

Lemma add_device_target_run w (r : ref) (A : Agent.t) (d : Device) lt :
  agents w !! r = Some A →
  lists w !! Agent.target_devices A = Some lt →
  add_device r "target" d w =
  (Return tt,
   mkWorld (agents w) (<[Agent.target_devices A := lt ++ [d]]> (lists w))
     (programs w) (qconnects w) (cconnects w)).
Proof.
  intros HA Ht. unfold add_device.
  rewrite (bind_return _ _ _ _ _ (deref_Some agents _ _ _ HA)).
  simpl. unfold list_append.
  by rewrite (bind_return _ _ _ _ _ (deref_Some lists _ _ _ Ht)).
Qed.

(** X10.  A connection holds the agents' device lists themselves, not
    copies.  A source device attached to the sender after the connection
    was built is invoked by the next [put], after the devices that were
    there, and the default pulse length is no longer charged.  A target
    device attached to the receiver while an entry is already pending is
    invoked by the [get] of that entry, after the transit devices and the
    target devices that were there when it was put. *)
Theorem devices_attached_later_are_invoked :
  (∀ w c C source target lt lg A (devs : list Device) (p : Program) q
     (sender : ref) (d : Device) qubits t,
     put_context w c C source target lt lg A devs p q →
     agents w !! sender = Some A →
     QConnect.source_devices C !! source = Some (Agent.source_devices A) →
     ∃ w1 w2,
       add_device sender "source" d w = (Return tt, w1) ∧
       QConnect_put c source target qubits t w1 =
         (Return (total (chain_delays (devs ++ [d]) p qubits) * len qubits)%Qc,
          w2) ∧
       programs w2 !! Agent.program A =
         Some (chain_program (devs ++ [d]) p qubits)) ∧
  (∀ w c C b B e rest (lt lg : list Device) pr (p : Program) (d : Device),
     get_context w c C b B e rest lt lg pr p →
     QConnect.e_target e = Agent.target_devices B →
     QConnect.e_transit e ≠ QConnect.e_target e →
     ∃ w1 delay w2,
       add_device b "target" d w = (Return tt, w1) ∧
       QConnect_get c (PyAgent b) w1 =
         (Return (QConnect.e_qubits e, delay, QConnect.e_source_time e), w2) ∧
       delay = (QConnect.e_source_delay e +
                total (chain_delays (lt ++ lg ++ [d]) p (QConnect.e_qubits e)) *
                  len (QConnect.e_qubits e))%Qc ∧
       programs w2 !! pr =
         Some (chain_program (lt ++ lg ++ [d]) p (QConnect.e_qubits e))).
Proof.
  split.
  - intros * (HC & (ls & Hls & Hdevs) & Hlt & Hlg & (a & Ha & HA) & Hp & Hq)
             Hsender Halias.
    rewrite Hls in Halias. injection Halias as ->.
    assert (Hm : ∀ X Y : Qc,
              match devs ++ [d] with [] => X | _ :: _ => Y end = Y)
      by (by destruct devs).
    pose proof (QConnect_put_run
      (mkWorld (agents w)
         (<[Agent.source_devices A := devs ++ [d]]> (lists w))
         (programs w) (qconnects w) (cconnects w))
      c C source target qubits t (Agent.source_devices A) lt lg a A
      (devs ++ [d]) p q HC Hls Hlt Hlg Ha HA (lookup_insert_eq _ _ _) Hp Hq)
      as Hrun.
    cbn zeta in Hrun. rewrite !Hm in Hrun.
    replace (0 + total (chain_delays (devs ++ [d]) p qubits))%Qc
      with (total (chain_delays (devs ++ [d]) p qubits)) in Hrun by ring.
    eexists _, _. split; [by apply add_device_source_run|].
    split; [exact Hrun|]. cbn. apply lookup_insert_eq.
  - intros * (HC & Hb & Hq & (b' & B' & Hreg & HB' & Hpr) & Hlt & Hlg & Hp)
             Halias Hdistinct.
    assert (Hm : ∀ X Y : Qc,
              match lg ++ [d] with [] => X | _ :: _ => Y end = Y)
      by (by destruct lg).
    subst pr.
    pose proof (QConnect_get_run
      (mkWorld (agents w)
         (<[Agent.target_devices B := lg ++ [d]]> (lists w))
         (programs w) (qconnects w) (cconnects w))
      c C b b' B B' e rest lt (lg ++ [d]) p HC Hb Hq Hreg HB') as Hrun.
    cbn [lists programs] in Hrun.
    rewrite <- Halias in Hrun.
    rewrite lookup_insert_ne, lookup_insert_eq in Hrun by done.
    specialize (Hrun Hlt eq_refl Hp). cbn zeta in Hrun. rewrite Hm in Hrun.
    eexists _, _, _. split.
    { apply add_device_target_run; [exact Hb|]. rewrite <- Halias. exact Hlg. }
    rewrite <- Halias. split; [exact Hrun|]. split.
    + rewrite default_travel_delay. destruct lt; ring.
    + cbn. apply lookup_insert_eq.
Qed.


(** ** Two agents of the same name *)

(** X11.  When the two agents have the same name (as two agents made
    without a name from one class have), the dict displays of
    [QConnect.__init__] keep one key: the connection knows one name, with
    one queue, and under it agent_two, agent_two's device lists and the
    reversed transit list, a list other than the one given; what was
    written for agent_one has been overwritten.  What either agent puts
    for the other
    lands in that one queue, and the next [get], by the sender too,
    takes it. *)
Theorem QConnect_init_same_name w (one two D : ref) (A1 A2 : Agent.t)
    (l : list Device) :
  agents w !! one = Some A1 →
  agents w !! two = Some A2 →
  lists w !! D = Some l →
  is_Some (lists w !! Agent.source_devices A1) →
  is_Some (lists w !! Agent.target_devices A1) →
  is_Some (lists w !! Agent.source_devices A2) →
  is_Some (lists w !! Agent.target_devices A2) →
  is_Some (programs w !! Agent.program A1) →
  is_Some (programs w !! Agent.program A2) →
  Agent.name A1 = Agent.name A2 →
  ∃ c w1 C r2,
    QConnect_init one two D w = (Return c, w1) ∧
    qconnects w1 !! c = Some C ∧
    dom (QConnect.queues C) = {[Agent.name A2]} ∧
    QConnect.agents C !! Agent.name A2 = Some two ∧
    QConnect.source_devices C !! Agent.name A2 = Some (Agent.source_devices A2) ∧
    QConnect.target_devices C !! Agent.name A2 = Some (Agent.target_devices A2) ∧
    QConnect.transit_devices C !! Agent.name A2 = Some r2 ∧
    r2 ≠ D ∧ lists w1 !! r2 = Some (reverse l) ∧
    ∀ qubits t,
      ∃ d w2,
        QConnect_put c (Agent.name A1) (Agent.name A2) qubits t w1 =
          (Return d, w2) ∧
        (∃ d' w3, QConnect_get c (PyAgent one) w2 = (Return (qubits, d', t), w3)) ∧
        (∃ d' w3, QConnect_get c (PyAgent two) w2 = (Return (qubits, d', t), w3)).
Proof.
  intros H1 H2 HD Hs1 Ht1 Hs2 Ht2 Hp1 Hp2 Hname.
  destruct (QConnect_init_ready _ _ _ _ _ _ _ H1 H2 HD Hs1 Ht1 Hs2 Ht2 Hp1 Hp2)
    as (c & w1 & Hrun & Hst2 & Hst1).
  destruct (QConnect_init_agents _ _ _ _ _ _ _ H1 H2 HD)
    as (w1' & A1' & A2' & Hrun' & _ & _ & _ & _ & _ & _ & _ & Hlists & _ & _ & Hqc).
  rewrite Hrun in Hrun'. injection Hrun' as -> <-.
  rewrite Hname in *.
  eexists _, w1, _, _. split; [exact Hrun|].
  rewrite Hqc. split; [apply lookup_insert_eq|].
  cbn [QConnect.queues QConnect.source_devices QConnect.agents
       QConnect.transit_devices QConnect.target_devices].
  split.
  { rewrite dom_insert_L, dom_singleton_L. apply (idemp_L (∪)). }
  rewrite !lookup_insert_eq. repeat split.
  - intros E. apply (is_fresh (dom (lists w))). rewrite E.
    apply elem_of_dom. eauto.
  - rewrite Hlists. apply lookup_insert_eq.
  - intros qubits t.
    destruct (direction_state_put _ _ _ _ _ _ qubits t Hst2) as (d & w2 & E & Hst2').
    destruct (direction_state_put _ _ _ _ _ _ qubits t Hst1) as (d1 & w2' & E1 & Hst1').
    rewrite E in E1. injection E1 as <- <-.
    exists d, w2. split; [exact E|]. cbn in Hst2', Hst1'. split.
    + destruct (direction_state_get _ _ _ _ _ _ _ _ Hst1') as (d' & w3 & E' & _).
      eauto.
    + destruct (direction_state_get _ _ _ _ _ _ _ _ Hst2') as (d' & w3 & E' & _).
      eauto.
Qed.


(** ** Classical connections *)



Lemma CConnect_get_blocks w (c : ref) (C : CConnect.t) agent :
  cconnects w !! c = Some C →
  CConnect.queues C !! agent = Some [] →
  CConnect_get c agent w = (Blocks, w).
Proof.
  intros HC Hq. unfold CConnect_get.
  rewrite (bind_return _ _ _ _ _ (deref_Some cconnects _ _ _ HC)).
  by rewrite (bind_return _ _ _ _ _ (getitem_Some _ _ _ _ Hq)).
Qed.



Lemma CConnect_init_agents w (one two : ref) (A1 A2 : Agent.t) (L : Qc) :
  agents w !! one = Some A1 →
  agents w !! two = Some A2 →
  ∃ w' A1' A2',
    CConnect_init one two L w = (Return (fresh (dom (cconnects w))), w') ∧
    agents w' !! one = Some A1' ∧ same_identity A1 A1' ∧
    agents w' !! two = Some A2' ∧ same_identity A2 A2' ∧
    Agent.cconnections A1' !! Agent.name A2 = Some (fresh (dom (cconnects w))) ∧
    Agent.cconnections A2' !! Agent.name A1 = Some (fresh (dom (cconnects w))) ∧
    (∀ r, r ≠ one → r ≠ two → agents w' !! r = agents w !! r) ∧
    lists w' = lists w ∧ programs w' = programs w ∧
    qconnects w' = qconnects w ∧
    cconnects w' =
      <[fresh (dom (cconnects w)) :=
          CConnect.mk (<[Agent.name A2 := two]> {[Agent.name A1 := one]}) L
            (<[Agent.name A2 := []]> {[Agent.name A1 := []]})]> (cconnects w).
Proof.
  intros H1 H2. unfold CConnect_init.
  rewrite bind_run. cbn beta iota.
  rewrite (bind_return _ _ _ _ _ (deref_Some agents _ _ _ H1)).
  rewrite (bind_return _ _ _ _ _ (deref_Some agents _ _ _ H2)).
  rewrite bind_run. cbn [set_agent agents lists programs qconnects cconnects].
  destruct (decide (one = two)) as [->|Hne].
  - erewrite bind_return; last first.
    { apply deref_Some. cbn. apply lookup_insert_eq. }
    rewrite H1 in H2. injection H2 as ->.
    eexists _, _, _. split; [reflexivity|]. cbn.
    rewrite !lookup_insert_eq.
    split; [done|]. split; [done|]. split; [done|]. split; [done|].
    split.
    { destruct (decide (Agent.name A2 = Agent.name A2)); [|done].
      apply lookup_insert_eq. }
    split; [apply lookup_insert_eq|].
    split; [|done]. intros r N1 _. by rewrite !lookup_insert_ne.
  - erewrite bind_return; last first.
    { apply deref_Some. cbn. rewrite lookup_insert_ne by done. exact H2. }
    eexists _, _, _. split; [reflexivity|]. cbn.
    rewrite lookup_insert_eq, lookup_insert_ne, lookup_insert_eq by done.
    split; [done|]. split; [done|]. split; [done|]. split; [done|].
    split; [apply lookup_insert_eq|]. split; [apply lookup_insert_eq|].
    split; [|done]. intros r N1 N2. by rewrite !lookup_insert_ne.
Qed.

(** X13.  Any two agents of the store can be joined: [CConnect(agent_one,
    agent_two, length)] returns a connection that was not in the store,
    and from then on, whatever the two names (the same name, or the same
    agent twice, included), agent_two's [crecv] from agent_one blocks
    until agent_one's [csend] to agent_two, which never blocks, and then
    returns the pair of the cbits sent and of their delay.  No agent's
    identity, clock included, changes on the way, and no list, program or
    quantum connection is touched. *)
Theorem CConnect_init_then_csend_crecv w (one two : ref) (A1 A2 : Agent.t)
    (L : Qc) cbits :
  agents w !! one = Some A1 →
  agents w !! two = Some A2 →
  ∃ c w1 w2 w3,
    CConnect_init one two L w = (Return c, w1) ∧
    cconnects w !! c = None ∧
    crecv two (Agent.name A1) w1 = (Blocks, w1) ∧
    csend one (Agent.name A2) cbits w1 = (Return tt, w2) ∧
    crecv two (Agent.name A1) w2 = (Return (cbits, classical_delay L cbits), w3) ∧
    crecv two (Agent.name A1) w3 = (Blocks, w3) ∧
    agents_kept w w3 ∧
    lists w3 = lists w ∧ programs w3 = programs w ∧ qconnects w3 = qconnects w.
Proof.
  intros H1 H2.
  destruct (CConnect_init_agents _ _ _ _ _ L H1 H2)
    as (w1 & A1' & A2' & Hrun & HA1 & Hid1 & HA2 & Hid2 & Hr1 & Hr2
        & Hother & Hlists & Hprogs & Hqc & Hcc).
  set (c := fresh (dom (cconnects w))) in *.
  set (C := CConnect.mk (<[Agent.name A2 := two]> {[Agent.name A1 := one]}) L
              (<[Agent.name A2 := []]> {[Agent.name A1 := []]})) in *.
  assert (HC : cconnects w1 !! c = Some C) by (rewrite Hcc; apply lookup_insert_eq).
  assert (Hq : CConnect.queues C !! Agent.name A2 = Some []) by apply lookup_insert_eq.
  destruct Hid1 as (Hn1 & Hid1). destruct Hid2 as (Hn2 & Hid2).
  assert (Hblocks : ∀ w' C', agents w' !! two = Some A2' →
            cconnects w' !! c = Some C' →
            CConnect.queues C' !! Agent.name A2 = Some [] →
            crecv two (Agent.name A1) w' = (Blocks, w')).
  { intros w' C' Hag HC' Hq'. unfold crecv.
    rewrite (bind_return _ _ _ _ _ (deref_Some agents _ _ _ Hag)).
    rewrite (bind_return _ _ _ _ _ (getitem_Some _ _ _ _ Hr2)).
    rewrite bind_run, Hn2. by rewrite (CConnect_get_blocks _ _ _ _ HC' Hq'). }
  set (C2 := CConnect.mk (CConnect.agents C) (CConnect.length C)
               (<[Agent.name A2 := [] ++ [(cbits,
                   (pulse_length_default * num 8 * num (sys_getsizeof cbits))%Qc)]]>
                  (CConnect.queues C))).
  set (w2 := mkWorld (agents w1) (lists w1) (programs w1) (qconnects w1)
               (<[c := C2]> (cconnects w1))).
  set (C3 := CConnect.mk (CConnect.agents C2) (CConnect.length C2)
               (<[Agent.name A2' := []]> (CConnect.queues C2))).
  set (w3 := mkWorld (agents w2) (lists w2) (programs w2) (qconnects w2)
               (<[c := C3]> (cconnects w2))).
  assert (HC2 : cconnects w2 !! c = Some C2) by apply lookup_insert_eq.
  assert (HC3 : cconnects w3 !! c = Some C3) by apply lookup_insert_eq.
  exists c, w1, w2, w3. split; [exact Hrun|].
  split; [apply not_elem_of_dom, is_fresh|].
  split; [by apply (Hblocks w1 C)|].
  split; [by apply (csend_run w1 one A1' (Agent.name A2) c C [] cbits)|].
  split.
  { apply (crecv_run w2 two A2' (Agent.name A1) c C2 cbits _ [] HA2 Hr2 HC2).
    cbn. rewrite Hn2. apply lookup_insert_eq. }
  split.
  { apply (Hblocks w3 C3 HA2 HC3). cbn. rewrite Hn2. apply lookup_insert_eq. }
  split.
  { intros r X HX. change (agents w3) with (agents w1).
    destruct (decide (r = one)) as [->|N1].
    - exists A1'. rewrite H1 in HX. injection HX as <-.
      split; [exact HA1|]. split; [exact Hn1|exact Hid1].
    - destruct (decide (r = two)) as [->|N2].
      + exists A2'. rewrite H2 in HX. injection HX as <-.
        split; [exact HA2|]. split; [exact Hn2|exact Hid2].
      + exists X. rewrite Hother by done. split; [done|]. by repeat split. }
  change (lists w3) with (lists w1). change (programs w3) with (programs w1).
  change (qconnects w3) with (qconnects w1). done.
Qed.


(** ** What no sequence of calls does *)

Lemma same_identity_refl (A : Agent.t) : same_identity A A.
Proof. by repeat split. Qed.

Lemma same_identity_trans (A B C : Agent.t) :
  same_identity A B → same_identity B C → same_identity A C.
Proof.
  intros (H1 & H2 & H3 & H4 & H5) (G1 & G2 & G3 & G4 & G5).
  repeat split; congruence.
Qed.

Lemma step_ok_refl w : step_ok w w.
Proof.
  repeat split; try done.
  - intros r A HA. exists A. split; [done|apply same_identity_refl].
  - intros r A' H1 H2. congruence.
Qed.

Lemma step_ok_trans w1 w2 w3 : step_ok w1 w2 → step_ok w2 w3 → step_ok w1 w3.
Proof.
  intros (Ha & [Hl Hp] & Hq & Hc & Hn) (Ha' & [Hl' Hp'] & Hq' & Hc' & Hn').
  repeat split; auto.
  - intros r A HA. destruct (Ha _ _ HA) as (A' & HA' & Hid).
    destruct (Ha' _ _ HA') as (A'' & HA'' & Hid').
    exists A''. split; [done|]. by eapply same_identity_trans.
  - intros r A'' HA'' Hnone.
    destruct (agents w2 !! r) as [A'|] eqn:HA'.
    + destruct (Ha' _ _ HA') as (X & HX & _ & Ht & _).
      rewrite HA'' in HX. injection HX as <-. rewrite Ht. by eapply Hn.
    + by eapply Hn'.
Qed.

Lemma step_ok_same_agents w w' :
  agents w' = agents w →
  (∀ r, is_Some (lists w !! r) → is_Some (lists w' !! r)) →
  (∀ r, is_Some (programs w !! r) → is_Some (programs w' !! r)) →
  (∀ r, is_Some (qconnects w !! r) → is_Some (qconnects w' !! r)) →
  (∀ r, is_Some (cconnects w !! r) → is_Some (cconnects w' !! r)) →
  step_ok w w'.
Proof.
  intros E Hl Hp Hq Hc. repeat split; auto.
  - intros r A HA. exists A. rewrite E. split; [done|apply same_identity_refl].
  - intros r A' H1 H2. rewrite E in H1. congruence.
Qed.

Lemma step_ok_update_agent w (r : ref) (A A' : Agent.t) :
  agents w !! r = Some A → same_identity A A' →
  step_ok w (mkWorld (<[r := A']> (agents w)) (lists w) (programs w)
               (qconnects w) (cconnects w)).
Proof.
  intros HA Hid. repeat split; try done.
  - intros r' X HX. cbn. destruct (decide (r = r')) as [<-|Hne].
    + exists A'. rewrite lookup_insert_eq. split; [done|]. congruence.
    + exists X. rewrite lookup_insert_ne by done.
      split; [done|apply same_identity_refl].
  - intros r' X HX Hnone. cbn in HX.
    destruct (decide (r = r')) as [<-|Hne]; [congruence|].
    rewrite lookup_insert_ne in HX by done. congruence.
Qed.

Lemma keeps_bind {X Y} (m : @M Program Device X) (k : X → @M Program Device Y) :
  keeps_store m → (∀ x, keeps_store (k x)) → keeps_store (m ≫= k).
Proof.
  intros Hm Hk w. rewrite bind_run. specialize (Hm w).
  destruct (m w) as [[x| | |] w']; cbn in *; try done.
  eapply step_ok_trans; [exact Hm|apply Hk].
Qed.

Lemma keeps_unchanged {X} (m : @M Program Device X) : (∀ w, (m w).2 = w) → keeps_store m.
Proof. intros E w. rewrite E. apply step_ok_refl. Qed.

Lemma keeps_ret {X} (x : X) : keeps_store (mret x : @M Program Device X).
Proof. by apply keeps_unchanged. Qed.

Lemma keeps_raise {X} e : keeps_store (raise e : @M Program Device X).
Proof. by apply keeps_unchanged. Qed.

Lemma keeps_blocks {X} : keeps_store (blocks : @M Program Device X).
Proof. by apply keeps_unchanged. Qed.

Lemma keeps_deref {V} (store : @World Program Device → gmap ref V) (r : ref) :
  keeps_store (deref store r).
Proof. apply keeps_unchanged. intros w. unfold deref. by destruct (store w !! r). Qed.

Lemma keeps_getitem {V} (d : gmap string V) k :
  keeps_store (getitem d k : @M Program Device V).
Proof. unfold getitem. destruct (d !! k); [apply keeps_ret|apply keeps_raise]. Qed.

Lemma keeps_set_list (r : ref) (l : list Device) :
  keeps_store (set_list r l : @M Program Device unit).
Proof.
  intros w. apply step_ok_same_agents; cbn; auto.
  intros r' Hr. apply lookup_insert_is_Some'. by right.
Qed.

Lemma keeps_set_program (r : ref) (p : Program) :
  keeps_store (set_program r p : @M Program Device unit).
Proof.
  intros w. apply step_ok_same_agents; cbn; auto.
  intros r' Hr. apply lookup_insert_is_Some'. by right.
Qed.

Lemma keeps_set_qconnect (r : ref) C :
  keeps_store (set_qconnect r C : @M Program Device unit).
Proof.
  intros w. apply step_ok_same_agents; cbn; auto.
  intros r' Hr. apply lookup_insert_is_Some'. by right.
Qed.

Lemma keeps_set_cconnect (r : ref) C :
  keeps_store (set_cconnect r C : @M Program Device unit).
Proof.
  intros w. apply step_ok_same_agents; cbn; auto.
  intros r' Hr. apply lookup_insert_is_Some'. by right.
Qed.

Lemma keeps_new_list (l : list Device) :
  keeps_store (new_list l : @M Program Device ref).
Proof.
  intros w. apply step_ok_same_agents; cbn; auto.
  intros r' Hr. apply lookup_insert_is_Some'. by right.
Qed.

Lemma keeps_new_program (p : Program) :
  keeps_store (new_program p : @M Program Device ref).
Proof.
  intros w. apply step_ok_same_agents; cbn; auto.
  intros r' Hr. apply lookup_insert_is_Some'. by right.
Qed.

Lemma keeps_getattr_name agent :
  keeps_store (getattr_name agent : @M Program Device string).
Proof.
  destruct agent; [apply keeps_raise|].
  apply keeps_bind; [apply keeps_deref|intros; apply keeps_ret].
Qed.

Lemma keeps_getattr_qubits agent :
  keeps_store (getattr_qubits agent : @M Program Device (list Z)).
Proof.
  destruct agent; [apply keeps_raise|].
  apply keeps_bind; [apply keeps_deref|intros; apply keeps_ret].
Qed.

Lemma keeps_setattr_qubits agent qs :
  keeps_store (setattr_qubits agent qs : @M Program Device unit).
Proof.
  destruct agent as [s|r]; [apply keeps_raise|].
  intros w. cbn. rewrite bind_run. unfold deref.
  destruct (agents w !! r) as [A|] eqn:HA; [|apply step_ok_refl].
  cbn. eapply step_ok_update_agent; [exact HA|]. by repeat split.
Qed.

Ltac keeps_with tac :=
  repeat first
    [ tac
    | apply keeps_bind; [|intros ?]
    | apply keeps_ret | apply keeps_raise | apply keeps_blocks
    | apply keeps_deref | apply keeps_getitem ].

Ltac keeps :=
  repeat first
    [ apply keeps_bind; [|intros ?]
    | apply keeps_ret | apply keeps_raise | apply keeps_blocks
    | apply keeps_deref | apply keeps_getitem
    | apply keeps_set_list | apply keeps_set_program
    | apply keeps_set_qconnect | apply keeps_set_cconnect
    | apply keeps_new_list | apply keeps_new_program
    | apply keeps_getattr_name | apply keeps_getattr_qubits
    | apply keeps_setattr_qubits ].

Lemma keeps_apply_each (devices : list Device) (program : ref) qubits delay :
  keeps_store (apply_each devices program qubits delay : @M Program Device Qc).
Proof.
  revert delay. induction devices as [|d ds IH]; intros delay; cbn [apply_each].
  - apply keeps_ret.
  - apply keeps_bind; [|intros; apply IH].
    unfold call_apply. apply keeps_bind; [apply keeps_deref|intros p].
    destruct (device_apply d p qubits). keeps.
Qed.

Lemma keeps_add_device (self : ref) device_type (device : Device) :
  keeps_store (add_device self device_type device : @M Program Device unit).
Proof. unfold add_device, list_append. keeps. repeat case_decide; keeps. Qed.

Lemma keeps_QConnect_put (c : ref) source target qubits t :
  keeps_store (QConnect_put c source target qubits t : @M Program Device Qc).
Proof.
  unfold QConnect_put, QConnect_queue_put. keeps.
  match goal with |- keeps_store (match ?l with _ => _ end) => destruct l end;
    [apply keeps_ret|apply keeps_apply_each].
Qed.

Lemma keeps_QConnect_get (c : ref) agent :
  keeps_store (QConnect_get c agent : @M Program Device _).
Proof.
  unfold QConnect_get, QConnect_queue_get. keeps.
  all: try apply keeps_apply_each.
  all: match goal with |- keeps_store (match ?l with _ => _ end) => destruct l end;
    keeps.
Qed.

Lemma keeps_CConnect_put (c : ref) target cbits :
  keeps_store (CConnect_put c target cbits : @M Program Device Qc).
Proof. unfold CConnect_put. keeps. Qed.

Lemma keeps_CConnect_get (c : ref) agent :
  keeps_store (CConnect_get c agent : @M Program Device (list Z * Qc)).
Proof.
  unfold CConnect_get. keeps.
  match goal with |- keeps_store (match ?l with _ => _ end) =>
    destruct l as [|[cbits d] rest] end; keeps.
Qed.

Lemma keeps_csend (self : ref) target cbits :
  keeps_store (csend self target cbits : @M Program Device unit).
Proof. unfold csend. keeps_with ltac:(apply keeps_CConnect_put). Qed.

Lemma keeps_crecv (self : ref) source :
  keeps_store (crecv self source : @M Program Device (list Z * Qc)).
Proof. unfold crecv. keeps_with ltac:(apply keeps_CConnect_get). Qed.

Lemma keeps_Agent_eq (self : ref) other :
  keeps_store (Agent_eq self other : @M Program Device bool).
Proof. unfold Agent_eq. keeps. Qed.

Lemma keeps_Agent_ne (self : ref) other :
  keeps_store (Agent_ne self other : @M Program Device bool).
Proof. unfold Agent_ne. keeps_with ltac:(apply keeps_Agent_eq). Qed.


Lemma keeps_qsend (self : ref) target qubits :
  keeps_store (qsend self target qubits : @M Program Device unit).
Proof.
  intros w. unfold qsend, deref. rewrite bind_run.
  destruct (agents w !! self) as [A|] eqn:HA; [|apply step_ok_refl].
  case_decide; [|apply step_ok_refl].
  rewrite bind_run. cbn [set_agent].
  erewrite bind_return; last first.
  { apply deref_Some. cbn. apply lookup_insert_eq. }
  rewrite bind_run. cbn [with_qubits Agent.qconnections Agent.name].
  unfold getitem.
  destruct (Agent.qconnections A !! target) as [c|]; cbn;
    (eapply step_ok_update_agent; [exact HA|by repeat split]).
Qed.

Lemma keeps_qrecv (self : ref) source :
  keeps_store (qrecv self source : @M Program Device (list Z)).
Proof.
  apply keeps_unchanged. intros w. unfold qrecv, deref. rewrite bind_run.
  destruct (agents w !! self) as [A|]; [|done].
  rewrite bind_run. unfold getitem.
  destruct (Agent.qconnections A !! source) as [c|]; [|done].
  cbn [ret]. rewrite bind_run. unfold QConnect_get, deref. rewrite bind_run.
  by destruct (qconnects w !! c).
Qed.

Lemma keeps_Agent_init class_name (program : ref) qubits name :
  keeps_store (Agent_init class_name program qubits name : @M Program Device ref).
Proof.
  intros w. rewrite Agent_init_run. cbn [snd].
  assert (Hself : agents w !! fresh (dom (agents w)) = None).
  { apply not_elem_of_dom, is_fresh. }
  split; [|split; [split|split; [|split]]]; try done.
  - intros r A HA. exists A. cbn. rewrite lookup_insert_ne by congruence.
    split; [done|apply same_identity_refl].
  - intros r Hr. cbn. do 2 (apply lookup_insert_is_Some'; right). done.
  - intros r A' HA' Hnone. cbn in HA'.
    destruct (decide (fresh (dom (agents w)) = r)) as [<-|Hne].
    + rewrite lookup_insert_eq in HA'. by injection HA' as <-.
    + rewrite lookup_insert_ne in HA' by done. congruence.
Qed.

Lemma keeps_QConnect_init (one two D : ref) :
  keeps_store (QConnect_init one two D : @M Program Device ref).
Proof.
  intros w.
  destruct (agents w !! one) as [A1|] eqn:H1; last first.
  { unfold QConnect_init. rewrite bind_run. cbn beta iota.
    rewrite bind_run. unfold deref. rewrite H1. apply step_ok_refl. }
  destruct (agents w !! two) as [A2|] eqn:H2; last first.
  { unfold QConnect_init. rewrite bind_run. cbn beta iota.
    rewrite (bind_return _ _ _ _ _ (deref_Some agents _ _ _ H1)).
    rewrite bind_run. unfold deref. rewrite H2. apply step_ok_refl. }
  destruct (lists w !! D) as [l|] eqn:HD; last first.
  { unfold QConnect_init. rewrite bind_run. cbn beta iota.
    rewrite (bind_return _ _ _ _ _ (deref_Some agents _ _ _ H1)).
    rewrite (bind_return _ _ _ _ _ (deref_Some agents _ _ _ H2)).
    rewrite bind_run. unfold deref. rewrite HD. apply step_ok_refl. }
  destruct (QConnect_init_agents _ _ _ _ _ _ _ H1 H2 HD)
    as (w' & A1' & A2' & Hrun & HA1 & Hid1 & HA2 & Hid2 & _ & _
        & Hother & Hlists & Hprogs & Hcc & Hqc).
  rewrite Hrun. cbn [snd].
  assert (Hkept : agents_kept w w').
  { intros r X HX. destruct (decide (r = one)) as [->|N1].
    - exists A1'. rewrite H1 in HX. by injection HX as <-.
    - destruct (decide (r = two)) as [->|N2].
      + exists A2'. rewrite H2 in HX. by injection HX as <-.
      + exists X. rewrite Hother by done. split; [done|apply same_identity_refl]. }
  split; [exact Hkept|]. split; [|split; [|split]].
  - split; [|by rewrite Hprogs]. intros r Hr. rewrite Hlists.
    apply lookup_insert_is_Some'. by right.
  - intros r Hr. rewrite Hqc. apply lookup_insert_is_Some'. by right.
  - by rewrite Hcc.
  - intros r X HX Hnone. destruct (decide (r = one)) as [->|N1]; [congruence|].
    destruct (decide (r = two)) as [->|N2]; [congruence|].
    rewrite Hother in HX by done. congruence.
Qed.

Lemma keeps_CConnect_init (one two : ref) (L : Qc) :
  keeps_store (CConnect_init one two L : @M Program Device ref).
Proof.
  intros w.
  destruct (agents w !! one) as [A1|] eqn:H1; last first.
  { unfold CConnect_init. rewrite bind_run. cbn beta iota.
    rewrite bind_run. unfold deref. rewrite H1. apply step_ok_refl. }
  destruct (agents w !! two) as [A2|] eqn:H2; last first.
  { unfold CConnect_init. rewrite bind_run. cbn beta iota.
    rewrite (bind_return _ _ _ _ _ (deref_Some agents _ _ _ H1)).
    rewrite bind_run. unfold deref. rewrite H2. apply step_ok_refl. }
  destruct (CConnect_init_agents _ _ _ _ _ L H1 H2)
    as (w' & A1' & A2' & Hrun & HA1 & Hid1 & HA2 & Hid2 & _ & _
        & Hother & Hlists & Hprogs & Hqc & Hcc).
  rewrite Hrun. cbn [snd].
  assert (Hkept : agents_kept w w').
  { intros r X HX. destruct (decide (r = one)) as [->|N1].
    - exists A1'. rewrite H1 in HX. by injection HX as <-.
    - destruct (decide (r = two)) as [->|N2].
      + exists A2'. rewrite H2 in HX. by injection HX as <-.
      + exists X. rewrite Hother by done. split; [done|apply same_identity_refl]. }
  split; [exact Hkept|]. split; [|split; [|split]].
  - split; [by rewrite Hlists|by rewrite Hprogs].
  - by rewrite Hqc.
  - intros r Hr. rewrite Hcc. apply lookup_insert_is_Some'. by right.
  - intros r X HX Hnone. destruct (decide (r = one)) as [->|N1]; [congruence|].
    destruct (decide (r = two)) as [->|N2]; [congruence|].
    rewrite Hother in HX by done. congruence.
Qed.

Lemma run_call_step_ok (k : call) w : step_ok w (run_call k w).
Proof.
  destruct k; cbn [run_call].
  - apply keeps_new_list.
  - apply keeps_new_program.
  - apply keeps_Agent_init.
  - apply keeps_add_device.
  - apply keeps_qsend.
  - apply keeps_qrecv.
  - apply keeps_csend.
  - apply keeps_crecv.
  - apply keeps_Agent_eq.
  - apply keeps_Agent_ne.
  - apply step_ok_refl.
  - apply keeps_QConnect_init.
  - apply keeps_QConnect_put.
  - apply keeps_QConnect_get.
  - apply keeps_CConnect_init.
  - apply keeps_CConnect_put.
  - apply keeps_CConnect_get.
Qed.

Lemma run_calls_step_ok (ks : list call) w : step_ok w (run_calls ks w).
Proof.
  revert w. induction ks as [|k ks IH]; intros w; cbn.
  - apply step_ok_refl.
  - eapply step_ok_trans; [apply run_call_step_ok|apply IH].
Qed.

(** X14.  Whatever calls a program makes, in whatever order and with
    whatever arguments (constructors, [add_device], the four send and
    receive calls, comparisons, [run], [put] and [get] of both kinds of
    connection), and whether they return, raise or block: every agent
    stays in the store with the name, clock, program and device lists it
    had, and no list, program or connection leaves the store. *)
Theorem calls_keep_identities (ks : list call) w :
  agents_kept w (run_calls ks w) ∧
  objects_kept w (run_calls ks w) ∧
  (∀ r, is_Some (qconnects w !! r) → is_Some (qconnects (run_calls ks w) !! r)) ∧
  (∀ r, is_Some (cconnects w !! r) → is_Some (cconnects (run_calls ks w) !! r)).
Proof.
  destruct (run_calls_step_ok ks w) as (Ha & Ho & Hq & Hc & _). auto.
Qed.

(** X15.  No clock ever advances: in every store a program reaches from
    the empty store, by whatever calls, every agent's clock reads 0, the
    value its constructor gave it. *)
Theorem clocks_never_advance (ks : list call) (r : ref) (A : Agent.t) :
  agents (run_calls ks (empty_world : @World Program Device)) !! r = Some A →
  Agent.time A = 0%Qc.
Proof.
  intros HA.
  destruct (run_calls_step_ok ks (empty_world : @World Program Device))
    as (_ & _ & _ & _ & Hnew).
  by apply (Hnew r A HA).
Qed.


End Properties.

(** ** The statements at work on the example *)

Section Examples.
Import Demo.
#[local] Existing Instances M_ret M_bind.

Example put_leaves_world_pending :
  (QConnect_put 1 "Alice" "Bob" [0; 1] 0%Qc world).2 = world_pending.
Proof.
  rewrite (QConnect_put_run world 1 link "Alice" "Bob" [0; 1] 0%Qc 2 5 3 1 alice
             [laser] ["H 0"] []) by reflexivity.
  reflexivity.
Qed.

Lemma add_device_by_role_witness :
  (agents world !! 1%positive = Some alice ∧
   lists world !! Agent.source_devices alice = Some [laser] ∧
   lists world !! Agent.target_devices alice = Some []) ∧
  add_device 1 "source" fiber world =
    (Return tt,
     mkWorld (agents world) (<[2%positive := [laser; fiber]]> (lists world))
       (programs world) (qconnects world) (cconnects world)) ∧
  add_device 1 "target" fiber world =
    (Return tt,
     mkWorld (agents world) (<[1%positive := [fiber]]> (lists world))
       (programs world) (qconnects world) (cconnects world)) ∧
  add_device 1 "transit" fiber world =
    (Raise (Exception "Invalid device type (e.g. 'source' or 'target'"), world).
Proof.
  split; [repeat split|].
  pose proof (λ role, add_device_by_role world 1 alice role fiber [laser] []
                        eq_refl eq_refl eq_refl) as H.
  split; [|split].
  - apply (H "source"). reflexivity.
  - apply (H "target"). reflexivity.
  - apply (H "transit"); discriminate.
Defined.

Lemma qsend_not_owned_witness :
  (agents world !! 2%positive = Some bob ∧
   ∃ x, x ∈ [0] ∧ x ∉ Agent.qubits bob) ∧
  qsend 2 "Alice" [0] world =
    (Raise (Exception "Agent cannot send qubits they do not have"), world).
Proof.
  assert (∃ x : Z, x ∈ [0] ∧ x ∉ Agent.qubits bob) as Hx.
  { exists 0. split; [by left|]. cbn. by intros ?%list_elem_of_singleton. }
  split; [by split|].
  by apply (qsend_not_owned world 2 bob "Alice" [0]).
Defined.

Lemma qsend_owned_raises_witness :
  (agents world !! 1%positive = Some alice ∧
   (∀ x, x ∈ [0] → x ∈ Agent.qubits alice) ∧
   Agent.qconnections alice !! "Bob" = Some 1%positive) ∧
  ∃ w',
    qsend 1 "Bob" [0] world =
    (Raise (TypeError "put() missing 1 required positional argument: 'source_time'"), w') ∧
    qconnects w' = qconnects world ∧
    ∃ a', agents w' !! 1%positive = Some a' ∧
          set_of (Agent.qubits a') = set_of (Agent.qubits alice) ∖ set_of [0].
Proof.
  assert (∀ x : Z, x ∈ [0] → x ∈ Agent.qubits alice) as Hsub.
  { intros x ->%list_elem_of_singleton. by left. }
  split; [by repeat split|].
  by apply (qsend_owned_raises world 1 alice "Bob" [0] 1).
Defined.

Lemma qsend_frame_witness :
  agents world !! 1%positive = Some alice ∧
  ∃ r w' a',
    qsend 1 "Bob" [0] world = (r, w') ∧
    agents w' !! 1%positive = Some a' ∧
    Agent.name a' = Agent.name alice ∧
    Agent.time a' = Agent.time alice ∧
    Agent.program a' = Agent.program alice ∧
    Agent.source_devices a' = Agent.source_devices alice ∧
    Agent.target_devices a' = Agent.target_devices alice ∧
    Agent.qconnections a' = Agent.qconnections alice ∧
    Agent.cconnections a' = Agent.cconnections alice ∧
    lists w' = lists world ∧ programs w' = programs world.
Proof.
  split; [reflexivity|].
  by apply (qsend_frame world 1 alice "Bob" [0]).
Defined.

Lemma qrecv_raises_witness :
  (agents world_pending !! 2%positive = Some bob ∧
   Agent.qconnections bob !! "Alice" = Some 1%positive ∧
   qconnects world_pending !! 1%positive = Some link_pending ∧
   queue_of world_pending 1 "Bob" = Some [sent]) ∧
  qrecv 2 "Alice" world_pending =
    (Raise (AttributeError "'str' object has no attribute 'name'"), world_pending).
Proof.
  split; [by repeat split|].
  by apply (qrecv_raises world_pending 2 bob "Alice" 1 link_pending).
Defined.

Lemma crecv_returns_pair_keeps_clock_witness :
  (agents world !! 1%positive = Some alice ∧
   agents world !! 2%positive = Some bob ∧
   Agent.cconnections alice !! "Bob" = Some 1%positive ∧
   Agent.cconnections bob !! "Alice" = Some 1%positive ∧
   cconnects world !! 1%positive = Some wire ∧
   CConnect.queues wire !! "Bob" = Some []) ∧
  ∃ w1 w2,
    csend 1 "Bob" [1; 0; 1] world = (Return tt, w1) ∧
    crecv 2 "Alice" w1 =
      (Return ([1; 0; 1],
               (CConnect.length wire / signal_speed * len [1%Z; 0%Z; 1%Z] +
                pulse_length_default * num 8 *
                  num (sys_getsizeof [1%Z; 0%Z; 1%Z]))%Qc),
       w2) ∧
    agents w2 = agents world ∧
    agents w2 !! 2%positive = Some bob.
Proof.
  split; [repeat split; reflexivity|].
  exact (crecv_returns_pair_keeps_clock world 1 2 alice bob 1 wire [1; 0; 1]
           eq_refl eq_refl eq_refl eq_refl eq_refl eq_refl).
Defined.

(** Bob puts to Alice on connection 1: he has no source device. *)
Lemma bob_puts : put_context world 1 link "Bob" "Alice" 6 1 bob [] ["H 0"] [].
Proof. repeat split; try reflexivity; eexists; split; reflexivity. Defined.

(** Alice puts to Bob on connection 1, through her laser. *)
Lemma alice_puts :
  put_context world 1 link "Alice" "Bob" 5 3 alice [laser] ["H 0"] [].
Proof. repeat split; try reflexivity; eexists; split; reflexivity. Defined.

(** Bob gets what Alice sent on connection 1: fiber and detector on the way,
    his own detector at the end. *)
Lemma bob_gets :
  get_context world_pending 1 link_pending 2 bob sent []
    [fiber; detector] [detector] 1 ["H 0"; "laser"].
Proof.
  repeat split; try reflexivity. exists 2%positive, bob. by repeat split.
Defined.

(** Alice gets Bob's reply on connection 2: no transit and no target device. *)
Lemma alice_gets : get_context world 2 bare 1 alice reply [] [] [] 1 ["H 0"].
Proof.
  repeat split; try reflexivity. exists 1%positive, alice. by repeat split.
Defined.

Lemma delay_accounting_witness :
  (put_context world 1 link "Bob" "Alice" 6 1 bob [] ["H 0"] [] ∧
   get_context world_pending 1 link_pending 2 bob sent []
     [fiber; detector] [detector] 1 ["H 0"; "laser"] ∧
   get_context world 2 bare 1 alice reply [] [] [] 1 ["H 0"]) ∧
  (∃ w',
     QConnect_put 1 "Bob" "Alice" [1] 0%Qc world =
       (Return (pulse_length_default * len [1%Z])%Qc, w') ∧
     queue_of w' 1 "Alice" =
       Some [QConnect.mk_entry [1] 6 1
               (pulse_length_default * len [1%Z])%Qc 0%Qc]) ∧
  (∃ delay w',
     QConnect_get 1 (PyAgent 2) world_pending =
       (Return ([0; 1], delay, 0%Qc), w') ∧
     delay = (QConnect.e_source_delay sent +
              total [cost fiber; cost detector; cost detector] *
                len [0%Z; 1%Z])%Qc) ∧
  (∃ delay w',
     QConnect_get 2 (PyAgent 1) world =
       (Return ([1], delay, 0%Qc), w') ∧
     delay = (QConnect.e_source_delay reply +
              fiber_length_default / signal_speed * len [1%Z])%Qc).
Proof.
  split; [exact (conj bob_puts (conj bob_gets alice_gets))|].
  destruct delay_accounting as [Hput Hget].
  split; [|split].
  - exact (Hput _ _ _ _ _ _ _ _ _ _ [1] 0%Qc bob_puts).
  - destruct (Hget _ _ _ _ _ _ _ _ _ _ _ bob_gets) as (d & w' & E & Hd & _).
    exists d, w'. split; [exact E|exact Hd].
  - destruct (Hget _ _ _ _ _ _ _ _ _ _ _ alice_gets) as (d & w' & E & _ & Hd).
    exists d, w'. split; [exact E|]. by apply Hd.
Defined.

Lemma get_merges_by_union_witness :
  (get_context world 2 bare 1 alice reply [] [] [] 1 ["H 0"] ∧
   (∀ x, x ∈ QConnect.e_qubits reply → x ∈ Agent.qubits alice) ∧
   NoDup (Agent.qubits alice)) ∧
  ∃ r w' B1,
    QConnect_get 2 (PyAgent 1) world = (Return r, w') ∧
    agents w' !! 1%positive = Some B1 ∧
    set_of (Agent.qubits B1) = set_of [1] ∪ set_of [0; 1] ∧
    NoDup (Agent.qubits B1) ∧
    set_of (Agent.qubits B1) = set_of [0; 1] ∧
    length (Agent.qubits B1) = 2%nat ∧
    Agent.qubits B1 ≡ₚ [0; 1].
Proof.
  assert (∀ x : Z, x ∈ QConnect.e_qubits reply → x ∈ Agent.qubits alice) as Hsub.
  { intros x ->%list_elem_of_singleton. cbn. by right; left. }
  assert (NoDup (Agent.qubits alice)) as Hnd.
  { cbn. apply NoDup_cons_2; [|apply NoDup_singleton].
    by intros ?%list_elem_of_singleton. }
  split; [exact (conj alice_gets (conj Hsub Hnd))|].
  destruct (get_merges_by_union _ _ _ _ _ _ _ _ _ _ _ alice_gets)
    as (r & w' & B1 & E & HB1 & Hunion & _ & Hnodup & Hsame).
  destruct (Hsame Hsub) as (Hset & Hlen & Hperm).
  exists r, w', B1. repeat split; try done. by apply Hperm.
Defined.

Lemma transit_chains_by_direction_witness :
  (agents world !! 1%positive = Some alice ∧
   agents world !! 2%positive = Some bob ∧
   lists world !! 5%positive = Some [fiber; detector] ∧
   Agent.name alice ≠ Agent.name bob ∧
   put_context world 1 link "Alice" "Bob" 5 3 alice [laser] ["H 0"] [] ∧
   put_context world 1 link "Bob" "Alice" 6 1 bob [] ["H 0"] [] ∧
   get_context world_pending 1 link_pending 2 bob sent []
     [fiber; detector] [detector] 1 ["H 0"; "laser"]) ∧
  (∃ c w' C r2,
     QConnect_init 1 2 5 world = (Return c, w') ∧
     qconnects w' !! c = Some C ∧
     QConnect.transit_devices C !! "Alice" = Some 5%positive ∧
     lists w' !! 5%positive = Some [fiber; detector] ∧
     QConnect.transit_devices C !! "Bob" = Some r2 ∧
     lists w' !! r2 = Some [detector; fiber]) ∧
  (∃ d w' e,
     QConnect_put 1 "Alice" "Bob" [0; 1] 0%Qc world = (Return d, w') ∧
     queue_of w' 1 "Bob" = Some [e] ∧
     QConnect.e_transit e = 5%positive) ∧
  (∃ d w' e,
     QConnect_put 1 "Bob" "Alice" [1] 0%Qc world = (Return d, w') ∧
     queue_of w' 1 "Alice" = Some [e] ∧
     QConnect.e_transit e = 6%positive) ∧
  (∃ delay w',
     QConnect_get 1 (PyAgent 2) world_pending =
       (Return ([0; 1], delay, 0%Qc), w') ∧
     programs w' !! 1%positive =
       Some ["H 0"; "laser"; "fiber"; "detector"; "detector"]).
Proof.
  assert (Agent.name alice ≠ Agent.name bob) as Hne by discriminate.
  split.
  { exact (conj eq_refl (conj eq_refl (conj eq_refl
            (conj Hne (conj alice_puts (conj bob_puts bob_gets)))))). }
  destruct transit_chains_by_direction as (Hinit & Hput & Hget).
  split; [|split; [|split]].
  - destruct (Hinit world 1%positive 2%positive 5%positive alice bob
                [fiber; detector] eq_refl eq_refl eq_refl)
      as (c & w' & C & r2 & E & HC & _ & HD & Hr2 & H2 & H1).
    exists c, w', C, r2. repeat split; try done. by apply H1.
  - destruct (Hput _ _ _ _ _ _ _ _ _ _ _ [0; 1] 0%Qc alice_puts)
      as (d & w' & e & E & Hq & He).
    exists d, w', e. repeat split; try done.
    cbn in He. by injection He.
  - destruct (Hput _ _ _ _ _ _ _ _ _ _ _ [1] 0%Qc bob_puts)
      as (d & w' & e & E & Hq & He).
    exists d, w', e. repeat split; try done.
    cbn in He. by injection He.
  - destruct (Hget _ _ _ _ _ _ _ _ _ _ _ bob_gets) as (d & w' & E & Hp & _).
    exists d, w'. split; [exact E|exact Hp].
Defined.

Lemma fifo_ready : direction_state world 1 "Alice" "Bob" 2 [].
Proof.
  exists link, [], bob. repeat split; try reflexivity.
  - by constructor.
  - exists 2%positive. by split.
  - exists 5%positive. by split.
  - exists 3%positive. by split.
  - exists 1%positive, alice. by repeat split.
  - exists 2%positive, bob. by repeat split.
Defined.

Lemma fifo_per_direction_witness :
  (direction_state world 1 "Alice" "Bob" 2 [] ∧
   "Alice" ≠ "Bob" ∧
   put_context world 1 link "Bob" "Alice" 6 1 bob [] ["H 0"] []) ∧
  QConnect_get 1 (PyAgent 2) world = (Blocks, world) ∧
  (∃ s w',
     QConnect_put 1 "Bob" "Alice" [1] 0%Qc world = (Return s, w') ∧
     QConnect_get 1 (PyAgent 2) w' = (Blocks, w')) ∧
  ∃ s1 w1 s2 w2 d1 w3 d2 w4,
    QConnect_put 1 "Alice" "Bob" [0] 0%Qc world = (Return s1, w1) ∧
    QConnect_put 1 "Alice" "Bob" [1] 1%Qc w1 = (Return s2, w2) ∧
    QConnect_get 1 (PyAgent 2) w2 = (Return ([0], d1, 0%Qc), w3) ∧
    QConnect_get 1 (PyAgent 2) w3 = (Return ([1], d2, 1%Qc), w4) ∧
    QConnect_get 1 (PyAgent 2) w4 = (Blocks, w4).
Proof.
  assert ("Alice" ≠ "Bob") as Hne by discriminate.
  split; [exact (conj fifo_ready (conj Hne bob_puts))|].
  destruct (fifo_per_direction world 1 "Alice" "Bob" 2 [0] 0%Qc [1] 1%Qc
              fifo_ready) as (Hblocks & Hopposite & Hfifo).
  split; [exact Hblocks|]. split; [|exact Hfifo].
  exact (Hopposite _ _ _ _ _ _ _ [1] 0%Qc Hne bob_puts).
Defined.

(** ** The further statements at work on the example *)

Lemma add_devices_in_call_order_witness :
  (agents world !! 1%positive = Some alice ∧
   lists world !! Agent.source_devices alice = Some [laser] ∧
   lists world !! Agent.target_devices alice = Some [] ∧
   Agent.source_devices alice ≠ Agent.target_devices alice) ∧
  ∃ w',
    add_devices 1
      [("source", fiber); ("transit", detector); ("target", detector);
       ("source", laser)] world = (Return tt, w') ∧
    lists w' !! 2%positive = Some [laser; fiber; laser] ∧
    lists w' !! 1%positive = Some [detector].
Proof.
  assert (Agent.source_devices alice ≠ Agent.target_devices alice) as Hne
    by discriminate.
  split; [by repeat split|].
  destruct (add_devices_in_call_order world 1 alice
              [("source", fiber); ("transit", detector); ("target", detector);
               ("source", laser)] [laser] [] eq_refl eq_refl eq_refl Hne)
    as (w' & E & Hs & Ht & _).
  exists w'. split; [exact E|]. split; [exact Hs|exact Ht].
Defined.

Lemma Agent_eq_by_name_witness :
  (agents world_anon !! 1%positive = Some anon_one ∧
   agents world_anon !! 2%positive = Some anon_two ∧
   Agent.name anon_one = Agent.name anon_two) ∧
  Agent_eq 1 (PyAgent 2) world_anon = (Return true, world_anon) ∧
  Agent_ne 1 (PyAgent 2) world_anon = (Return false, world_anon) ∧
  Agent_hash (λ s, Z.of_nat (String.length s)) 1 world_anon = Agent_hash (λ s, Z.of_nat (String.length s)) 2 world_anon ∧
  Agent_eq 1 (PyStr "Agent") world_anon =
    (Raise (AttributeError "'str' object has no attribute 'name'"), world_anon).
Proof.
  split; [by repeat split|].
  destruct (Agent_eq_by_name world_anon 1 2 anon_one anon_two (λ s, Z.of_nat (String.length s))
              eq_refl eq_refl) as (Heq & Hne & _ & Hhash & Hstr).
  split; [exact Heq|]. split; [exact Hne|]. split; [by apply Hhash|apply Hstr].
Defined.

Lemma unknown_peer_raises_witness :
  (agents world !! 1%positive = Some alice ∧
   Agent.qconnections alice !! "Carol" = None ∧
   Agent.cconnections alice !! "Carol" = None ∧
   ∀ x : Z, x ∈ [0] → x ∈ Agent.qubits alice) ∧
  qrecv 1 "Carol" world = (Raise (KeyError "Carol"), world) ∧
  (∃ a',
     qsend 1 "Carol" [0] world =
       (Raise (KeyError "Carol"),
        mkWorld (<[1%positive := a']> (agents world)) (lists world)
          (programs world) (qconnects world) (cconnects world)) ∧
     ∀ x, x ∈ Agent.qubits a' ↔ x ∈ Agent.qubits alice ∧ x ∉ [0]) ∧
  crecv 1 "Carol" world = (Raise (KeyError "Carol"), world) ∧
  csend 1 "Carol" [1] world = (Raise (KeyError "Carol"), world).
Proof.
  assert (∀ x : Z, x ∈ [0] → x ∈ Agent.qubits alice) as Hsub.
  { intros x ->%list_elem_of_singleton. by left. }
  split; [by repeat split|].
  destruct (unknown_peer_raises world 1 alice "Carol" eq_refl) as [Hq Hc].
  destruct (Hq eq_refl) as [Hqrecv Hqsend].
  destruct (Hc eq_refl) as [Hcrecv Hcsend].
  split; [exact Hqrecv|]. split; [exact (Hqsend [0] Hsub)|].
  split; [exact Hcrecv|apply Hcsend].
Defined.

Lemma alice_ok : agent_ok world 1.
Proof. exists alice. repeat split; eexists; reflexivity. Defined.

Lemma bob_ok : agent_ok world 2.
Proof. exists bob. repeat split; eexists; reflexivity. Defined.

Lemma link_wf : QConnect_wf world 1.
Proof.
  eapply (pair_connection_wf world 1 "Alice" "Bob" 2 4 1 3 5 6 1 2 [] []);
    try (eexists; reflexivity); try reflexivity;
    try apply alice_ok; try apply bob_ok; constructor.
Defined.

Lemma bare_wf : QConnect_wf world 2.
Proof.
  eapply (pair_connection_wf world 2 "Alice" "Bob" 2 4 1 3 7 8 1 2 [reply] []);
    try (eexists; reflexivity); try reflexivity;
    try apply alice_ok; try apply bob_ok.
  - apply Forall_singleton. split; eexists; reflexivity.
  - constructor.
Defined.

Lemma QConnect_init_well_formed_witness :
  (agents world !! 1%positive = Some alice ∧
   agents world !! 2%positive = Some bob ∧
   agent_ok world 1 ∧ agent_ok world 2 ∧
   is_Some (lists world !! 5%positive)) ∧
  ∃ c w',
    QConnect_init 1 2 5 world = (Return c, w') ∧
    qconnects world !! c = None ∧
    QConnect_wf w' c ∧
    names_of w' c = {["Alice"; "Bob"]} ∧
    queue_of w' c "Alice" = Some [] ∧
    queue_of w' c "Bob" = Some [] ∧
    (∃ A1', agents w' !! 1%positive = Some A1' ∧
            Agent.qconnections A1' !! "Bob" = Some c) ∧
    (∃ A2', agents w' !! 2%positive = Some A2' ∧
            Agent.qconnections A2' !! "Alice" = Some c).
Proof.
  assert (is_Some (lists world !! 5%positive)) as HD by (eexists; reflexivity).
  split; [exact (conj eq_refl (conj eq_refl (conj alice_ok (conj bob_ok HD))))|].
  destruct (QConnect_init_well_formed world 1 2 5 alice bob eq_refl eq_refl
              alice_ok bob_ok HD)
    as (c & w' & E & Hnew & Hwf & Hnames & Hq1 & Hq2 & Hr1 & Hr2 & _).
  exists c, w'. repeat split; try done.
Defined.

Lemma QConnect_put_total_witness :
  (QConnect_wf world 1 ∧ "Alice" ∈ names_of world 1 ∧
   "Bob" ∈ names_of world 1 ∧ "Carol" ∉ names_of world 1) ∧
  QConnect_put 1 "Carol" "Bob" [0] 0%Qc world = (Raise (KeyError "Carol"), world) ∧
  QConnect_put 1 "Alice" "Carol" [0] 0%Qc world = (Raise (KeyError "Carol"), world) ∧
  ∃ d w' e,
    QConnect_put 1 "Alice" "Bob" [0] 0%Qc world = (Return d, w') ∧
    QConnect_wf w' 1 ∧
    queue_of w' 1 "Bob" = Some ([] ++ [e]) ∧
    QConnect.e_qubits e = [0] ∧
    agents w' = agents world.
Proof.
  assert ("Alice" ∈ names_of world 1) as Ha by (by vm_compute).
  assert ("Bob" ∈ names_of world 1) as Hb by (by vm_compute).
  assert ("Carol" ∉ names_of world 1) as Hc.
  { apply not_elem_of_dom. reflexivity. }
  split; [exact (conj link_wf (conj Ha (conj Hb Hc)))|].
  destruct (QConnect_put_total world 1 "Carol" "Bob" [0] 0%Qc link_wf)
    as (H1 & _).
  destruct (QConnect_put_total world 1 "Alice" "Carol" [0] 0%Qc link_wf)
    as (_ & H2 & _).
  destruct (QConnect_put_total world 1 "Alice" "Bob" [0] 0%Qc link_wf)
    as (_ & _ & H3).
  split; [exact (H1 Hc)|]. split; [exact (H2 Ha Hc)|].
  destruct (H3 Ha Hb) as (d & w' & q & e & E & Hwf & Hq & Hq' & He & _ & _ & _ & _ & Hag & _).
  exists d, w', e. split; [exact E|]. split; [exact Hwf|].
  assert (q = []) as -> by (by injection Hq).
  split; [exact Hq'|]. split; [exact He|exact Hag].
Defined.


Lemma link_pending_wf : QConnect_wf world_pending 1.
Proof.
  assert (agent_ok world_pending 1) as Ha
    by (exists alice; repeat split; eexists; reflexivity).
  assert (agent_ok world_pending 2) as Hb
    by (exists bob; repeat split; eexists; reflexivity).
  eapply (pair_connection_wf world_pending 1 "Alice" "Bob" 2 4 1 3 5 6 1 2
            [] [sent]);
    try (eexists; reflexivity); try reflexivity; try done.
  apply Forall_singleton. split; eexists; reflexivity.
Defined.

Lemma QConnect_get_total_witness :
  (QConnect_wf world 1 ∧ agents world !! 2%positive = Some bob ∧
   queue_of world 1 (Agent.name bob) = Some [] ∧
   QConnect_wf world_pending 1 ∧ agents world_pending !! 2%positive = Some bob ∧
   queue_of world_pending 1 (Agent.name bob) = Some [sent]) ∧
  QConnect_get 1 (PyStr "Bob") world =
    (Raise (AttributeError "'str' object has no attribute 'name'"), world) ∧
  QConnect_get 1 (PyAgent 2) world = (Blocks, world) ∧
  ∃ d w',
    QConnect_get 1 (PyAgent 2) world_pending = (Return ([0; 1], d, 0%Qc), w') ∧
    QConnect_wf w' 1 ∧
    queue_of w' 1 "Bob" = Some [] ∧
    queue_of w' 1 "Alice" = queue_of world_pending 1 "Alice" ∧
    lists w' = lists world_pending.
Proof.
  assert ("Alice" ≠ Agent.name bob) as Hne by discriminate.
  split; [by repeat split; try apply link_wf; try apply link_pending_wf|].
  destruct (QConnect_get_total world 1 2 bob link_wf eq_refl)
    as (Hstr & _ & Hblocks & _).
  destruct (QConnect_get_total world_pending 1 2 bob link_pending_wf eq_refl)
    as (_ & _ & _ & Hget).
  split; [apply Hstr|]. split; [exact (Hblocks eq_refl)|].
  destruct (Hget sent [] eq_refl)
    as (d & w' & E & Hwf & Hq & Hother & _ & _ & Hlists & _).
  exists d, w'. split; [exact E|]. split; [exact Hwf|].
  split; [exact Hq|]. split; [exact (Hother "Alice" Hne)|exact Hlists].
Defined.

Lemma direction_is_fifo_queue_witness :
  direction_state world 1 "Alice" "Bob" 2 [] ∧
  run_direction 1 "Alice" "Bob" 2
    [DGet; DPut [0] 0%Qc; DPut [1] 1%Qc; DGet; DGet; DGet] world =
  [Blocked; Enqueued; Enqueued; Got [0] 0%Qc; Got [1] 1%Qc; Blocked].
Proof.
  split; [exact fifo_ready|].
  exact (direction_is_fifo_queue world 1 "Alice" "Bob" 2 []
           [DGet; DPut [0] 0%Qc; DPut [1] 1%Qc; DGet; DGet; DGet] fifo_ready).
Defined.

Lemma devices_attached_later_are_invoked_witness :
  (put_context world 1 link "Alice" "Bob" 5 3 alice [laser] ["H 0"] [] ∧
   agents world !! 1%positive = Some alice ∧
   QConnect.source_devices link !! "Alice" = Some (Agent.source_devices alice) ∧
   get_context world_pending 1 link_pending 2 bob sent []
     [fiber; detector] [detector] 1 ["H 0"; "laser"] ∧
   QConnect.e_target sent = Agent.target_devices bob ∧
   QConnect.e_transit sent ≠ QConnect.e_target sent) ∧
  (∃ w1 w2,
     add_device 1 "source" fiber world = (Return tt, w1) ∧
     QConnect_put 1 "Alice" "Bob" [0; 1] 0%Qc w1 =
       (Return (total [cost laser; cost fiber] * len [0%Z; 1%Z])%Qc, w2) ∧
     programs w2 !! 1%positive = Some ["H 0"; "laser"; "fiber"]) ∧
  (∃ w1 delay w2,
     add_device 2 "target" laser world_pending = (Return tt, w1) ∧
     QConnect_get 1 (PyAgent 2) w1 = (Return ([0; 1], delay, 0%Qc), w2) ∧
     delay = (QConnect.e_source_delay sent +
              total [cost fiber; cost detector; cost detector; cost laser] *
                len [0%Z; 1%Z])%Qc ∧
     programs w2 !! 1%positive =
       Some ["H 0"; "laser"; "fiber"; "detector"; "detector"; "laser"]).
Proof.
  assert (QConnect.e_transit sent ≠ QConnect.e_target sent) as Hne
    by discriminate.
  split; [by repeat split; try apply alice_puts; try apply bob_gets|].
  destruct devices_attached_later_are_invoked as [Hput Hget].
  split.
  - exact (Hput world 1%positive link "Alice" "Bob" 5%positive 3%positive
             alice [laser] ["H 0"] [] 1%positive fiber [0; 1] 0%Qc
             alice_puts eq_refl eq_refl).
  - exact (Hget world_pending 1%positive link_pending 2%positive bob sent []
             [fiber; detector] [detector] 1%positive ["H 0"; "laser"] laser
             bob_gets eq_refl Hne).
Defined.

Lemma QConnect_init_same_name_witness :
  (agents world_anon !! 1%positive = Some anon_one ∧
   agents world_anon !! 2%positive = Some anon_two ∧
   lists world_anon !! 5%positive = Some [fiber; detector] ∧
   Agent.name anon_one = Agent.name anon_two) ∧
  ∃ c w1 C r2,
    QConnect_init 1 2 5 world_anon = (Return c, w1) ∧
    qconnects w1 !! c = Some C ∧
    dom (QConnect.queues C) = {["Agent"]} ∧
    QConnect.agents C !! "Agent" = Some 2%positive ∧
    QConnect.source_devices C !! "Agent" = Some 4%positive ∧
    QConnect.target_devices C !! "Agent" = Some 3%positive ∧
    QConnect.transit_devices C !! "Agent" = Some r2 ∧
    r2 ≠ 5%positive ∧ lists w1 !! r2 = Some [detector; fiber] ∧
    ∃ d w2,
      QConnect_put c "Agent" "Agent" [0] 0%Qc w1 = (Return d, w2) ∧
      (∃ d' w3, QConnect_get c (PyAgent 1) w2 = (Return ([0], d', 0%Qc), w3)) ∧
      (∃ d' w3, QConnect_get c (PyAgent 2) w2 = (Return ([0], d', 0%Qc), w3)).
Proof.
  split; [by repeat split|].
  destruct (QConnect_init_same_name world_anon 1 2 5 anon_one anon_two
              [fiber; detector] eq_refl eq_refl eq_refl
              (ex_intro _ _ eq_refl) (ex_intro _ _ eq_refl)
              (ex_intro _ _ eq_refl) (ex_intro _ _ eq_refl)
              (ex_intro _ _ eq_refl) (ex_intro _ _ eq_refl) eq_refl)
    as (c & w1 & C & r2 & E & HC & Hdom & Ha & Hs & Ht & Htr & Hr & Hl & Hrun).
  exists c, w1, C, r2. repeat (split; [assumption|]). apply Hrun.
Defined.


Lemma CConnect_init_then_csend_crecv_witness :
  (agents world !! 1%positive = Some alice ∧
   agents world !! 2%positive = Some bob) ∧
  ∃ c w1 w2 w3,
    CConnect_init 1 2 (num 5996) world = (Return c, w1) ∧
    cconnects world !! c = None ∧
    crecv 2 "Alice" w1 = (Blocks, w1) ∧
    csend 1 "Bob" [1; 0; 1] w1 = (Return tt, w2) ∧
    crecv 2 "Alice" w2 =
      (Return ([1; 0; 1], classical_delay (num 5996) [1; 0; 1]), w3) ∧
    crecv 2 "Alice" w3 = (Blocks, w3) ∧
    agents_kept world w3 ∧
    lists w3 = lists world ∧ programs w3 = programs world ∧
    qconnects w3 = qconnects world.
Proof.
  split; [by split|].
  exact (CConnect_init_then_csend_crecv world 1 2 alice bob (num 5996)
           [1; 0; 1] eq_refl eq_refl).
Defined.

Lemma clocks_never_advance_witness :
  ∃ A B,
    agents (run_calls session empty_world) !! 1%positive = Some A ∧
    agents (run_calls session empty_world) !! 2%positive = Some B ∧
    Agent.name A = "Alice" ∧ Agent.name B = "Bob" ∧
    Agent.time A = 0%Qc ∧ Agent.time B = 0%Qc.
Proof.
  destruct (agents (run_calls session empty_world) !! 1%positive)
    as [A|] eqn:EA; [|by vm_compute in EA].
  destruct (agents (run_calls session empty_world) !! 2%positive)
    as [B|] eqn:EB; [|by vm_compute in EB].
  exists A, B. split; [reflexivity|]. split; [reflexivity|].
  split; [by vm_compute in EA; injection EA as <-|].
  split; [by vm_compute in EB; injection EB as <-|].
  split.
  - exact (clocks_never_advance session 1 A EA).
  - exact (clocks_never_advance session 2 B EB).
Defined.


End Examples.
